(** * jadx-context-builder: the context generation engine

    A shallow embedding of [JadxContextGenerator] (jadx-context-builder.py)
    and the properties of its budgeted breadth-first closure.

    Conventions of the embedding.
    - A Python [str] is a [string]; its characters are the code points
      U+0000..U+00FF, one per [ascii].  The character classes [\s] and [\w]
      and [str.lower] are those of Python on that range.
    - The regular expressions of the source are transcribed as data and run
      by a small backtracking matcher (module [Re]) with the priorities of
      Python's [re]: greedy quantifiers try the longest run first, lazy ones
      the shortest, alternatives are tried left to right.
    - [fnmatch.fnmatch] is module [Fnmatch], written after
      [fnmatch.translate].
    - The file tree and the SQLite table are fields of the generator record:
      the table [class_index] is a finite map from its primary key. *)

From Stdlib Require Import ZArith Ascii String List Lia Bool.
From stdpp Require Import base option list gmap strings.

Local Open Scope string_scope.

(** ** Python strings *)

Module Py.

Definition code (c : ascii) : nat := nat_of_ascii c.

Definition between (lo hi : nat) (c : ascii) : bool :=
  (lo <=? code c)%nat && (code c <=? hi)%nat.

(** [str.isspace] / [\s] on U+0000..U+00FF. *)
Definition is_space (c : ascii) : bool :=
  between 9 13 c || between 28 32 c || (code c =? 133)%nat || (code c =? 160)%nat.

Definition is_ascii_alnum (c : ascii) : bool :=
  between 48 57 c || between 65 90 c || between 97 122 c.

(** [\w] on U+0000..U+00FF: alphanumeric (in the sense of [str.isalnum])
    or underscore. *)
Definition is_word (c : ascii) : bool :=
  is_ascii_alnum c || (code c =? 95)%nat
  || (code c =? 170)%nat || (code c =? 178)%nat || (code c =? 179)%nat
  || (code c =? 181)%nat || (code c =? 185)%nat || (code c =? 186)%nat
  || between 188 190 c || between 192 214 c || between 216 246 c
  || between 248 255 c.

(** [str.lower] on one character. *)
Definition lower_char (c : ascii) : ascii :=
  if between 65 90 c || between 192 214 c || between 216 222 c
  then ascii_of_nat (code c + 32) else c.

Fixpoint lower (s : string) : string :=
  match s with
  | EmptyString => EmptyString
  | String c s' => String (lower_char c) (lower s')
  end.

Fixpoint startswith (p s : string) : bool :=
  match p, s with
  | EmptyString, _ => true
  | String a p', String b s' => Ascii.eqb a b && startswith p' s'
  | String _ _, EmptyString => false
  end.

(** [sub in s] *)
Fixpoint contains (sub s : string) : bool :=
  startswith sub s ||
  match s with
  | EmptyString => false
  | String _ s' => contains sub s'
  end.

Fixpoint drop (n : nat) (s : string) : string :=
  match n, s with
  | S k, String _ s' => drop k s'
  | _, _ => s
  end.

Fixpoint take (n : nat) (s : string) : string :=
  match n, s with
  | S k, String c s' => String c (take k s')
  | _, _ => EmptyString
  end.

Fixpoint lstrip (s : string) : string :=
  match s with
  | String c s' => if is_space c then lstrip s' else s
  | EmptyString => EmptyString
  end.

(** Drops the trailing whitespace: a character is kept when it is not a
    space or something is kept after it. *)
Fixpoint rstrip (s : string) : string :=
  match s with
  | EmptyString => EmptyString
  | String c s' =>
      match rstrip s' with
      | EmptyString => if is_space c then EmptyString else String c EmptyString
      | r => String c r
      end
  end.

(** [s.strip()] *)
Definition strip (s : string) : string := rstrip (lstrip s).

(** [s.split(sep)] for a one-character separator: never returns []. *)
Fixpoint split (sep : ascii) (s : string) : list string :=
  match s with
  | EmptyString => [EmptyString]
  | String c s' =>
      if Ascii.eqb c sep then EmptyString :: split sep s'
      else match split sep s' with
           | w :: ws => String c w :: ws
           | [] => [String c EmptyString]
           end
  end.

(** [sep.join(parts)] *)
Fixpoint join (sep : string) (parts : list string) : string :=
  match parts with
  | [] => EmptyString
  | [p] => p
  | p :: ps => p ++ sep ++ join sep ps
  end.

(** [s.replace(a, b)] for one-character [a] and [b]. *)
Fixpoint replace_char (a b : ascii) (s : string) : string :=
  match s with
  | EmptyString => EmptyString
  | String c s' => String (if Ascii.eqb c a then b else c) (replace_char a b s')
  end.

(** [xs[:-1]] *)
Fixpoint but_last {A} (xs : list A) : list A :=
  match xs with
  | [] => []
  | [_] => []
  | x :: xs' => x :: but_last xs'
  end.

(** [xs[-1]] of a non-empty list (of [split]). *)
Definition last_of (xs : list string) : string := List.last xs EmptyString.

(** [not s] *)
Definition is_empty (s : string) : bool :=
  match s with EmptyString => true | _ => false end.

End Py.

(** ** The fragment of Python's [re] the program uses *)

Module Re.

Inductive quant := One | Star | Plus | LazyStar.

(** One item of a pattern: a character class and its quantifier. *)
Record atom := Atom { cls : ascii -> bool; qt : quant }.

(** A sequence of items; a pattern is a list of alternatives [b1|b2|...]. *)
Definition branch := list atom.
Definition regex := list branch.

Definition chr (c : ascii) : atom := Atom (Ascii.eqb c) One.

Fixpoint lit (s : string) : branch :=
  match s with
  | EmptyString => []
  | String c s' => chr c :: lit s'
  end.

Definition any (_ : ascii) : bool := true.
(** [.] without DOTALL *)
Definition dot (c : ascii) : bool := negb (Ascii.eqb c "010"%char).

Definition one_of (set : string) (c : ascii) : bool :=
  existsb (Ascii.eqb c) (list_ascii_of_string set).

(** A match is reported as the number of characters each item consumed. *)
Definition bump (r : list nat) : list nat :=
  match r with
  | n :: r' => S n :: r'
  | [] => []
  end.

Definition skip0 (r : option (list nat)) : option (list nat) :=
  match r with Some l => Some (0%nat :: l) | None => None end.

(** [c*] followed by [k]: the longest run first. *)
Fixpoint greedy (c : ascii -> bool) (k : string -> option (list nat))
    (s : string) : option (list nat) :=
  match s with
  | String x s' =>
      if c x then
        match greedy c k s' with
        | Some r => Some (bump r)
        | None => skip0 (k s)
        end
      else skip0 (k s)
  | EmptyString => skip0 (k s)
  end.

(** [c*?] followed by [k]: the shortest run first. *)
Fixpoint lazy (c : ascii -> bool) (k : string -> option (list nat))
    (s : string) : option (list nat) :=
  match skip0 (k s) with
  | Some r => Some r
  | None =>
      match s with
      | String x s' => if c x then option_map bump (lazy c k s') else None
      | EmptyString => None
      end
  end.

(** Match a sequence at the start of [s]; [final] is what must hold of the
    rest ([fun _ => Some []] for [re.match], the empty-rest test for [\Z]). *)
Fixpoint match_branch (final : string -> option (list nat)) (p : branch)
    : string -> option (list nat) :=
  match p with
  | [] => final
  | a :: p' =>
      match qt a with
      | One => fun s =>
          match s with
          | String x s' =>
              if cls a x then option_map (cons 1%nat) (match_branch final p' s')
              else None
          | EmptyString => None
          end
      | Star => greedy (cls a) (match_branch final p')
      | Plus => fun s =>
          match s with
          | String x s' =>
              if cls a x
              then option_map bump (greedy (cls a) (match_branch final p') s')
              else None
          | EmptyString => None
          end
      | LazyStar => lazy (cls a) (match_branch final p')
      end
  end.

Definition anywhere (_ : string) : option (list nat) := Some [].
Definition at_end (s : string) : option (list nat) :=
  match s with EmptyString => Some [] | _ => None end.

(** The first alternative that matches at the start of [s]. *)
Fixpoint match_here (re : regex) (s : string) : option (list nat) :=
  match re with
  | [] => None
  | b :: re' =>
      match match_branch anywhere b s with
      | Some r => Some r
      | None => match_here re' s
      end
  end.

Definition total (r : list nat) : nat := fold_right Nat.add 0%nat r.

(** Length of the match of [re] at the start of [s]. *)
Definition match_len (re : regex) (s : string) : option nat :=
  option_map total (match_here re s).

(** [re.search]: the leftmost match, as (offset, lengths per item). *)
Fixpoint search (re : regex) (s : string) : option (nat * list nat) :=
  match match_here re s with
  | Some r => Some (0%nat, r)
  | None =>
      match s with
      | String _ s' =>
          match search re s' with
          | Some (i, r) => Some (S i, r)
          | None => None
          end
      | EmptyString => None
      end
  end.

(** The text matched by the items [from, from+count) of a match. *)
Definition group (s : string) (m : nat * list nat) (from count : nat) : string :=
  Py.take (total (firstn count (skipn from (snd m))))
          (Py.drop (fst m + total (firstn from (snd m))) s).

(** [re.findall] (whole matches): non-overlapping matches, left to right.
    [skip] counts the characters of the current match still to pass. *)
Fixpoint findall_from (re : regex) (skip : nat) (s : string) : list string :=
  match s with
  | EmptyString =>
      match match_len re s with Some _ => [EmptyString] | None => [] end
  | String x s' =>
      match skip with
      | S k => findall_from re k s'
      | O =>
          match match_len re s with
          | Some (S l) => Py.take (S l) s :: findall_from re l s'
          | Some O => EmptyString :: findall_from re 0 s'
          | None => findall_from re 0 s'
          end
      end
  end.

Definition findall (re : regex) (s : string) : list string := findall_from re 0 s.

(** [re.sub(re, repl, s)] for a replacement without group references. *)
Fixpoint sub_from (re : regex) (repl : string) (skip : nat) (s : string) : string :=
  match s with
  | EmptyString =>
      match match_len re s with Some _ => repl | None => EmptyString end
  | String x s' =>
      match skip with
      | S k => sub_from re repl k s'
      | O =>
          match match_len re s with
          | Some (S l) => repl ++ sub_from re repl l s'
          | Some O => repl ++ String x (sub_from re repl 0 s')
          | None => String x (sub_from re repl 0 s')
          end
      end
  end.

Definition sub (re : regex) (repl s : string) : string := sub_from re repl 0 s.

End Re.

(** ** [fnmatch.fnmatch] (POSIX: [os.path.normcase] is the identity) *)

Module Fnmatch.

Definition dash : ascii := "-"%char.
Definition bang : ascii := "!"%char.
Definition rbracket : ascii := "]"%char.

Definition head (s : string) : option ascii :=
  match s with String c _ => Some c | EmptyString => None end.

Definition head_is (c : ascii) (s : string) : bool :=
  match s with String x _ => Ascii.eqb x c | EmptyString => false end.

Fixpoint last_char (s : string) : option ascii :=
  match s with
  | EmptyString => None
  | String c EmptyString => Some c
  | String _ s' => last_char s'
  end.

Fixpoint index_of (c : ascii) (s : string) : option nat :=
  match s with
  | EmptyString => None
  | String x s' => if Ascii.eqb x c then Some 0%nat else option_map S (index_of c s')
  end.

(** [pat.find(c, from)] *)
Definition find_from (c : ascii) (from : nat) (s : string) : option nat :=
  option_map (Nat.add from) (index_of c (Py.drop from s)).

(** The offset of the [']'] that closes a set, [rest] being the pattern
    after the ['[']: a leading ['!'] and a [']'] right after it are passed
    over first. *)
Definition find_close (rest : string) : option nat :=
  let j := if head_is bang rest then 1%nat else 0%nat in
  let j := if head_is rbracket (Py.drop j rest) then S j else j in
  find_from rbracket j rest.

(** The chunks between the range hyphens of [stuff]; [off] is where the
    search for the next hyphen starts. *)
Fixpoint chunks_of (fuel off : nat) (cur : string) : list string :=
  match fuel with
  | O => [cur]
  | S fuel' =>
      match find_from dash off cur with
      | None => [cur]
      | Some k => Py.take k cur :: chunks_of fuel' 2 (Py.drop (S k) cur)
      end
  end.

(** An empty last chunk is a trailing hyphen of the chunk before it. *)
Fixpoint close_chunks (cs : list string) : list string :=
  match cs with
  | [] => []
  | [c] => [c]
  | [c; EmptyString] => [c ++ "-"]
  | c :: cs' => c :: close_chunks cs'
  end.

(** Remove the ranges whose start is above their end, from the right. *)
Fixpoint drop_empty_ranges (cs : list string) : list string :=
  match cs with
  | [] => []
  | c :: cs' =>
      match drop_empty_ranges cs' with
      | [] => [c]
      | r :: rs =>
          match last_char c, head r with
          | Some a, Some b =>
              if (Py.code b <? Py.code a)%nat
              then (Py.take (String.length c - 1) c ++ Py.drop 1 r) :: rs
              else c :: r :: rs
          | _, _ => c :: r :: rs
          end
      end
  end.

Definition set_chunks (stuff : string) : list string :=
  if Re.one_of stuff dash
  then drop_empty_ranges
         (close_chunks
            (chunks_of (String.length stuff) (if head_is bang stuff then 2 else 1) stuff))
  else [stuff].

(** Membership in the set written by the chunks: a character of a chunk, or
    a character of the range between two neighbouring chunks. *)
Fixpoint in_chunks (cs : list string) (c : ascii) : bool :=
  match cs with
  | [] => false
  | a :: cs' =>
      Re.one_of a c
      || match last_char a, cs' with
         | Some lo, b :: _ =>
             match head b with
             | Some hi => Py.between (Py.code lo) (Py.code hi) c
             | None => false
             end
         | _, _ => false
         end
      || in_chunks cs' c
  end.

Definition set_atom (stuff : string) : Re.atom :=
  let cs := set_chunks stuff in
  if Py.is_empty (Py.join "-" cs) then Re.Atom (fun _ => false) Re.One
  else match cs with
       | [ "!" ] => Re.Atom Re.any Re.One
       | String "!" first :: cs' =>
           Re.Atom (fun c => negb (in_chunks (first :: cs') c)) Re.One
       | _ => Re.Atom (in_chunks cs) Re.One
       end.

(** [fnmatch.translate]: consecutive stars are one star. *)
Fixpoint translate_from (fuel : nat) (after_star : bool) (pat : string) : Re.branch :=
  match fuel with
  | O => []
  | S fuel' =>
      match pat with
      | EmptyString => []
      | String c rest =>
          if Ascii.eqb c "*"%char then
            if after_star then translate_from fuel' true rest
            else Re.Atom Re.any Re.Star :: translate_from fuel' true rest
          else if Ascii.eqb c "?"%char then
            Re.Atom Re.any Re.One :: translate_from fuel' false rest
          else if Ascii.eqb c "["%char then
            match find_close rest with
            | None => Re.chr c :: translate_from fuel' false rest
            | Some j =>
                set_atom (Py.take j rest)
                  :: translate_from fuel' false (Py.drop (S j) rest)
            end
          else Re.chr c :: translate_from fuel' false rest
      end
  end.

Definition translate (pat : string) : Re.branch :=
  translate_from (String.length pat) false pat.

(** The translated pattern is matched against the whole name. *)
Definition fnmatch (name pat : string) : bool :=
  match Re.match_branch Re.at_end (translate pat) name with
  | Some _ => true
  | None => false
  end.

End Fnmatch.

(** ** [int(n * 1.2)] in binary64 *)

Module Float.

Local Open Scope Z_scope.

(** Round a non-negative integer to a multiple of [2^s], ties to even. *)
Definition round_to (s p : Z) : Z :=
  let q := p / 2 ^ s in
  let r := p mod 2 ^ s in
  let half := 2 ^ (s - 1) in
  (if (half <? r) || ((r =? half) && Z.odd q) then q + 1 else q) * 2 ^ s.

(** Round a non-negative integer to 53 significant bits, ties to even. *)
Definition round53 (p : Z) : Z :=
  if p <? 2 ^ 53 then p else round_to (Z.log2 p - 52) p.

(** The double nearest to 1.2 is [significand_1_2 * 2^-52]. *)
Definition significand_1_2 : Z := 5404319552844595.

(** [int(n * 1.2)] for an int [n >= 0]: [n] is converted to a double, the
    product is rounded to a double, and [int] truncates it. *)
Definition int_mul_1_2 (n : Z) : Z :=
  round53 (round53 n * significand_1_2) / 2 ^ 52.

End Float.

(** ** The text functions of the generator *)

Definition newline : ascii := "010"%char.
Definition nl : string := String newline EmptyString.

Definition ws : Re.atom := Re.Atom Py.is_space Re.Star.

(** [[A-Za-z0-9_.]] *)
Definition is_name_char (c : ascii) : bool :=
  Py.is_ascii_alnum c || Re.one_of "_." c.
(** [[A-Za-z0-9_]] *)
Definition is_ident_char (c : ascii) : bool :=
  Py.is_ascii_alnum c || Re.one_of "_" c.
(** [[A-Za-z0-9_.,\s]] *)
Definition is_name_list_char (c : ascii) : bool :=
  Py.is_ascii_alnum c || Re.one_of "_.," c || Py.is_space c.

(** [r'\s+'] *)
Definition re_spaces : Re.regex := [[Re.Atom Py.is_space Re.Plus]].
(** [r'\s*{\s*'] *)
Definition re_open_brace : Re.regex := [[ws; Re.chr "{"; ws]].
(** [r'\s*}\s*'] *)
Definition re_close_brace : Re.regex := [[ws; Re.chr "}"; ws]].
(** [r'//.*?\n'] *)
Definition re_line_comment : Re.regex :=
  [(Re.lit "//" ++ [Re.Atom Re.dot Re.LazyStar; Re.chr newline])%list].
(** [r'/\*.*?\*/'] with [re.DOTALL] *)
Definition re_block_comment : Re.regex :=
  [(Re.lit "/*" ++ [Re.Atom Re.any Re.LazyStar] ++ Re.lit "*/")%list].
(** [r'\n\s*\n'] *)
Definition re_blank_lines : Re.regex := [[Re.chr newline; ws; Re.chr newline]].

(** [r'\w+|[^\w\s]'] *)
Definition is_symbol (c : ascii) : bool := negb (Py.is_word c || Py.is_space c).
Definition re_words : Re.regex :=
  [[Re.Atom Py.is_word Re.Plus]; [Re.Atom is_symbol Re.One]].
(** [r'[{}\[\]()<>]'] *)
Definition is_bracket (c : ascii) : bool := Re.one_of "{}[]()<>" c.
Definition re_brackets : Re.regex := [[Re.Atom is_bracket Re.One]].

(** [r'extends\s+([A-Za-z0-9_.]+)']: group 1 is item 8. *)
Definition re_extends : Re.regex :=
  [(Re.lit "extends"
      ++ [Re.Atom Py.is_space Re.Plus; Re.Atom is_name_char Re.Plus])%list].
(** [r'implements\s+([A-Za-z0-9_.,\s]+)']: group 1 is item 11. *)
Definition re_implements : Re.regex :=
  [(Re.lit "implements"
      ++ [Re.Atom Py.is_space Re.Plus; Re.Atom is_name_list_char Re.Plus])%list].
(** [r'([A-Za-z0-9_]+\.[A-Za-z0-9_.]+)'] *)
Definition re_class_ref : Re.regex :=
  [[Re.Atom is_ident_char Re.Plus; Re.chr "."; Re.Atom is_name_char Re.Plus]].

Definition optimize_code_tokens (code : string) : string :=
  (* Remove unnecessary whitespace *)
  let code := Re.sub re_spaces " " code in
  let code := Re.sub re_open_brace "{" code in
  let code := Re.sub re_close_brace "}" code in
  (* Remove comments *)
  let code := Re.sub re_line_comment nl code in
  let code := Re.sub re_block_comment "" code in
  (* Remove empty lines *)
  let code := Re.sub re_blank_lines nl code in
  Py.strip code.

Definition calculate_tokens (text : string) : Z :=
  let words := Re.findall re_words text in
  let special_tokens := length (Re.findall re_brackets text) in
  let whitespace := length (Re.findall re_spaces text) in
  Float.int_mul_1_2
    (Z.of_nat (length words) + Z.of_nat special_tokens + Z.of_nat whitespace).

(** ** Paths ([os.path], [pathlib] on POSIX, normalised relative paths) *)

Module Path.

Definition sep : ascii := "/"%char.

(** [os.path.join(a, b)] *)
Definition join (a b : string) : string :=
  if Fnmatch.head_is sep b then b
  else if Py.is_empty a then b
  else match Fnmatch.last_char a with
       | Some c => if Ascii.eqb c sep then a ++ b else a ++ "/" ++ b
       | None => b
       end.

(** [Path(p).relative_to(root)]: [None] stands for its [ValueError]. *)
Definition relative_to (p root : string) : option string :=
  if Py.startswith (root ++ "/") p
  then match Py.drop (String.length root + 1) p with
       | EmptyString => None
       | rel => Some rel
       end
  else None.

(** [name.rfind('.')] *)
Fixpoint rfind_dot (name : string) : option nat :=
  match name with
  | EmptyString => None
  | String c name' =>
      match rfind_dot name' with
      | Some i => Some (S i)
      | None => if Ascii.eqb c "."%char then Some 0%nat else None
      end
  end.

(** [PurePath.suffix] is [name[i:]] when [0 < i < len(name) - 1]. *)
Definition drop_suffix (name : string) : string :=
  match rfind_dot name with
  | Some i =>
      if (0 <? i)%nat && (i <? String.length name - 1)%nat
      then Py.take i name else name
  | None => name
  end.

(** [p.with_suffix('')] of a relative path with a non-empty name. *)
Definition with_suffix_empty (p : string) : string :=
  let parts := Py.split sep p in
  Py.join "/" (Py.but_last parts ++ [drop_suffix (Py.last_of parts)])%list.

(** [str(file.relative_to(root).with_suffix('')).replace(os.sep, '.')] *)
Definition dotted_name (file root : string) : option string :=
  match relative_to file root with
  | Some rel => Some (Py.replace_char sep "."%char (with_suffix_empty rel))
  | None => None
  end.

End Path.

(** ** The generator *)

(** The decompiled tree: the files in the order a recursive scan yields
    them, each with its text ([None]: reading it raises), and the
    directories that exist. *)
Record FileTree := {
  files : list (string * option string);
  dirs : list string
}.

Definition endswith_java (p : string) : bool :=
  Fnmatch.fnmatch (Py.last_of (Py.split Path.sep p)) "*.java".

(** [os.path.exists(root)] and [list(Path(root).rglob("*.java"))] *)
Definition rglob_java (t : FileTree) (root : string) : option (list string) :=
  if existsb (String.eqb root) (dirs t)
  then Some (List.filter (fun p => Py.startswith (root ++ "/") p && endswith_java p)
                    (map fst (files t)))
  else None.

(** [open(path).read()] *)
Fixpoint read_in (fs : list (string * option string)) (path : string) : option string :=
  match fs with
  | [] => None
  | (p, c) :: fs' => if String.eqb p path then c else read_in fs' path
  end.

Definition read_text (t : FileTree) (path : string) : option string :=
  read_in (files t) path.

(** A row of the table [class_index], keyed by [class_name]. *)
Record ClassRow := { file_path : string; package : string }.

Record JadxContextGenerator := {
  MAX_TOKENS : Z;
  conn : option (gmap string ClassRow);
  tree : FileTree
}.

Definition output_dir : string := "decompiled_output".

Definition search_paths : list string :=
  [ Path.join output_dir "sources";
    Path.join (Path.join (Path.join output_dir "src") "main") "java";
    output_dir ].

(** [__init__]: the budget and an empty index. *)
Definition init (t : FileTree) : JadxContextGenerator :=
  {| MAX_TOKENS := 100000; conn := Some ∅; tree := t |}.

(** [package = '.'.join(class_name.split('.')[:-1])] *)
Definition package_of (class_name : string) : string :=
  Py.join "." (Py.but_last (Py.split "."%char class_name)).

(** One [INSERT OR REPLACE] per file of one search path. *)
Definition index_files (root : string) (paths : list string)
    (idx : gmap string ClassRow) : gmap string ClassRow :=
  fold_left
    (fun idx file_path =>
       match Path.dotted_name file_path root with
       | Some class_name =>
           <[class_name := {| file_path := file_path;
                              package := package_of class_name |}]> idx
       | None => idx
       end)
    paths idx.

Definition _build_class_index (g : JadxContextGenerator) : JadxContextGenerator :=
  match conn g with
  | None => g
  | Some idx =>
      {| MAX_TOKENS := MAX_TOKENS g;
         conn := Some (fold_left
                         (fun idx root =>
                            match rglob_java (tree g) root with
                            | Some paths => index_files root paths idx
                            | None => idx
                            end)
                         search_paths idx);
         tree := tree g |}
  end.

(** The scan of [find_class_file] over one search path. *)
Fixpoint scan_files (class_name root : string) (paths : list string) : option string :=
  match paths with
  | [] => None
  | java_file :: paths' =>
      match Path.dotted_name java_file root with
      | Some potential_class_name =>
          if Py.contains (Py.lower class_name) (Py.lower potential_class_name)
          then Some java_file
          else scan_files class_name root paths'
      | None => scan_files class_name root paths'
      end
  end.

Fixpoint scan_paths (t : FileTree) (class_name : string) (roots : list string)
    : option string :=
  match roots with
  | [] => None
  | root :: roots' =>
      match rglob_java t root with
      | Some paths =>
          match scan_files class_name root paths with
          | Some f => Some f
          | None => scan_paths t class_name roots'
          end
      | None => scan_paths t class_name roots'
      end
  end.

(** [SELECT file_path FROM class_index WHERE class_name = ?], when there is
    a connection. *)
Definition index_lookup (g : JadxContextGenerator) (class_name : string)
    : option ClassRow :=
  conn g ≫= (fun idx => idx !! class_name).

Definition find_class_file (g : JadxContextGenerator) (class_name : string)
    : option string :=
  (* Try database first *)
  match index_lookup g class_name with
  | Some row => Some (file_path row)
  | None => scan_paths (tree g) class_name search_paths
  end.

Definition get_class_content (g : JadxContextGenerator) (class_name : string) : string :=
  match find_class_file g class_name with
  | None => ""
  | Some class_file =>
      if Py.is_empty class_file then ""
      else match read_text (tree g) class_file with
           | Some content => content
           | None => ""
           end
  end.

(** [for pat in patterns: if fnmatch.fnmatch(package, pat): return hit],
    and [otherwise] when the loop ends. *)
Fixpoint first_match (package : string) (patterns : list string)
    (hit otherwise : bool) : bool :=
  match patterns with
  | [] => otherwise
  | pat :: patterns' =>
      if Fnmatch.fnmatch package pat then hit
      else first_match package patterns' hit otherwise
  end.

Definition matches_package_filter (package : string) (whitelist blacklist : list string)
    : bool :=
  (* First check blacklist *)
  first_match package blacklist false
    (* Then check whitelist *)
    (first_match package whitelist true
       (* If no whitelist, accept all non-blacklisted *)
       (length whitelist =? 0)%nat).

(** [hierarchy]: the dictionary of [get_class_hierarchy]. *)
Record Hierarchy := {
  superclasses : list string;
  interfaces : list string;
  inner_classes : list string;
  referenced_classes : gset string;
  using_classes : gset string
}.

Definition empty_hierarchy : Hierarchy :=
  {| superclasses := []; interfaces := []; inner_classes := [];
     referenced_classes := ∅; using_classes := ∅ |}.

(** [re.search(r'extends\s+([A-Za-z0-9_.]+)', content)], group 1 *)
Definition extract_superclass (content : string) : list string :=
  match Re.search re_extends content with
  | Some m => [Re.group content m 8 1]
  | None => []
  end.

(** [re.search(r'implements\s+([A-Za-z0-9_.,\s]+)', content)], group 1, split
    at the commas and stripped *)
Definition extract_interfaces (content : string) : list string :=
  match Re.search re_implements content with
  | Some m => map Py.strip (Py.split ","%char (Re.group content m 11 1))
  | None => []
  end.

(** [re.findall(r'([A-Za-z0-9_]+\.[A-Za-z0-9_.]+)', content)] *)
Definition extract_references (content : string) : list string :=
  Re.findall re_class_ref content.

Definition trace_usage (g : JadxContextGenerator) (class_name : string) : gset string :=
  let class_simple_name := Py.last_of (Py.split "."%char class_name) in
  match conn g with
  | None => ∅
  | Some idx =>
      list_to_set
        (omap (fun row =>
                 match read_text (tree g) (file_path row) with
                 | Some content =>
                     if Py.contains class_name content
                        || Py.contains class_simple_name content
                     then Path.dotted_name (file_path row) output_dir
                     else None
                 | None => None
                 end)
              (map snd (map_to_list idx)))
  end.

(** ** The traversal

    Two things the closure reads are left open: [set_order], the order in
    which Python iterates a [set] of strings (it follows the string hashes,
    which change from one process to the next), and [usage], the result of
    the usage tracer. *)

(** The state of the loop of [generate_context].  [appended] is not a
    variable of the source: it records, for the statements below, the class
    names whose bodies were appended to [context_parts], in order. *)
Record TraversalState := {
  context_parts : list string;
  processed_classes : gset string;
  classes_to_process : list string;
  total_tokens : Z;
  appended : list string
}.

Section Traversal.

Variable set_order : gset string -> list string.
Variable usage : JadxContextGenerator -> string -> gset string.

Definition get_class_hierarchy_with (g : JadxContextGenerator) (class_name : string)
    : Hierarchy :=
  match find_class_file g class_name with
  | None => empty_hierarchy
  | Some class_file =>
      if Py.is_empty class_file then empty_hierarchy
      else match read_text (tree g) class_file with
           | None => empty_hierarchy
           | Some content =>
               {| superclasses := extract_superclass content;
                  interfaces := extract_interfaces content;
                  inner_classes := [];
                  referenced_classes := list_to_set (extract_references content);
                  using_classes := usage g class_name |}
           end
  end.

Variable g : JadxContextGenerator.
Variables whitelist blacklist : list string.

Definition initial_state (target_class : string) : TraversalState :=
  {| context_parts := [];
     processed_classes := ∅;
     classes_to_process := [target_class];
     total_tokens := 0;
     appended := [] |}.

(** [while classes_to_process and total_tokens < self.MAX_TOKENS] *)
Definition loop_cond (st : TraversalState) : bool :=
  match classes_to_process st with
  | [] => false
  | _ :: _ => (total_tokens st <? MAX_TOKENS g)%Z
  end.

(** The names pushed on the queue when [current_class] is appended. *)
Definition related_classes (current_class : string) : list string :=
  let hierarchy := get_class_hierarchy_with g current_class in
  (superclasses hierarchy ++ interfaces hierarchy
     ++ set_order (referenced_classes hierarchy))%list.

(** One iteration of the loop. *)
Definition loop_body (st : TraversalState) : TraversalState :=
  match classes_to_process st with
  | [] => st
  | current_class :: queue =>
      let skip :=
        {| context_parts := context_parts st;
           processed_classes := processed_classes st;
           classes_to_process := queue;
           total_tokens := total_tokens st;
           appended := appended st |} in
      if bool_decide (current_class ∈ processed_classes st) then skip
      (* Check package filters *)
      else if negb (matches_package_filter current_class whitelist blacklist) then skip
      else
        let class_content := get_class_content g current_class in
        if Py.is_empty class_content then skip
        else
          (* Optimize code to reduce tokens *)
          let optimized_content := optimize_code_tokens class_content in
          let tokens_needed := calculate_tokens optimized_content in
          if (total_tokens st + tokens_needed <=? MAX_TOKENS g)%Z then
            {| context_parts := (context_parts st ++ [optimized_content])%list;
               processed_classes := {[current_class]} ∪ processed_classes st;
               (* Add related classes to processing queue *)
               classes_to_process := (queue ++ related_classes current_class)%list;
               total_tokens := total_tokens st + tokens_needed;
               appended := (appended st ++ [current_class])%list |}
          else
            {| context_parts := context_parts st;
               processed_classes := {[current_class]} ∪ processed_classes st;
               classes_to_process := queue;
               total_tokens := total_tokens st;
               appended := appended st |}
  end.

(** At most [fuel] iterations of the loop. *)
Fixpoint run (fuel : nat) (st : TraversalState) : TraversalState :=
  match fuel with
  | O => st
  | S fuel' => if loop_cond st then run fuel' (loop_body st) else st
  end.

(** Every file path [find_class_file] can return. *)
Definition known_files : list string :=
  (match conn g with
   | Some idx => map (fun kv => file_path (snd kv)) (map_to_list idx)
   | None => []
   end ++ map fst (files (tree g)))%list.

(** The names the hierarchy of the class stored in [path] puts on the queue. *)
Definition related_in_file (path : string) : list string :=
  match read_text (tree g) path with
  | Some content =>
      (extract_superclass content ++ extract_interfaces content
         ++ set_order (list_to_set (extract_references content)))%list
  | None => []
  end.

(** Every name that can enter the queue. *)
Definition universe (target_class : string) : list string :=
  target_class :: flat_map related_in_file known_files.

(** What is left to do: the queue, and for every name not yet processed its
    own visit and the names it would push. *)
Definition pending (names : list string) (processed : gset string) : nat :=
  fold_right
    (fun u acc =>
       if bool_decide (u ∈ processed) then acc
       else (S (length (related_classes u)) + acc)%nat)
    0%nat names.

Definition measure (target_class : string) (st : TraversalState) : nat :=
  (length (classes_to_process st)
   + pending (universe target_class) (processed_classes st))%nat.

(** A number of iterations after which the loop has ended. *)
Definition enough_fuel (target_class : string) : nat :=
  measure target_class (initial_state target_class).

Definition final_state (target_class : string) : TraversalState :=
  run (enough_fuel target_class) (initial_state target_class).

Definition generate_context_with (target_class : string) : string :=
  Py.join (nl ++ nl) (context_parts (final_state target_class)).

(** What one iteration does with the class at the front of the queue. *)
Inductive step_of (st : TraversalState) (c : string) (queue : list string)
    : TraversalState -> Prop :=
  | step_skip :
      c ∈ processed_classes st
      ∨ matches_package_filter c whitelist blacklist = false
      ∨ get_class_content g c = "" ->
      step_of st c queue
        {| context_parts := context_parts st;
           processed_classes := processed_classes st;
           classes_to_process := queue;
           total_tokens := total_tokens st;
           appended := appended st |}
  | step_append :
      c ∉ processed_classes st ->
      matches_package_filter c whitelist blacklist = true ->
      get_class_content g c <> "" ->
      (total_tokens st + calculate_tokens (optimize_code_tokens (get_class_content g c)) <= MAX_TOKENS g)%Z ->
      step_of st c queue
        {| context_parts := context_parts st ++ [optimize_code_tokens (get_class_content g c)];
           processed_classes := {[c]} ∪ processed_classes st;
           classes_to_process := queue ++ related_classes c;
           total_tokens := total_tokens st + calculate_tokens (optimize_code_tokens (get_class_content g c));
           appended := appended st ++ [c] |}
  | step_over_budget :
      c ∉ processed_classes st ->
      matches_package_filter c whitelist blacklist = true ->
      get_class_content g c <> "" ->
      (MAX_TOKENS g < total_tokens st + calculate_tokens (optimize_code_tokens (get_class_content g c)))%Z ->
      step_of st c queue
        {| context_parts := context_parts st;
           processed_classes := {[c]} ∪ processed_classes st;
           classes_to_process := queue;
           total_tokens := total_tokens st;
           appended := appended st |}.

(** Every name on the queue is one the corpus can produce. *)
Definition queue_known (target : string) (st : TraversalState) : Prop :=
  Forall (fun c => c ∈ universe target) (classes_to_process st).

(** The cost of a class: the estimate of its normalised text. *)
Definition cost_of (class_name : string) : Z :=
  calculate_tokens (optimize_code_tokens (get_class_content g class_name)).

End Traversal.

Definition get_class_hierarchy (g : JadxContextGenerator) (class_name : string)
    : Hierarchy :=
  get_class_hierarchy_with trace_usage g class_name.

(** [generate_context], under the iteration order [set_order] of the run. *)
Definition generate_context (set_order : gset string -> list string)
    (g : JadxContextGenerator) (target_class : string)
    (whitelist blacklist : option (list string)) : string :=
  generate_context_with set_order trace_usage g
    (default [] whitelist) (default [] blacklist) target_class.

(** ** Reading the claims

    The counts of the token model in the words of the specification, the
    orders a set may be iterated in, and the corpora the statements below
    are evaluated on. *)

(** The number of characters of [s] in the class. *)
Fixpoint occurrences (cls : ascii -> bool) (s : string) : nat :=
  match s with
  | EmptyString => 0
  | String c s' => ((if cls c then 1 else 0) + occurrences cls s')%nat
  end.

(** The number of places where a run of the class starts; [inside] tells
    whether the character before [s] is in the class. *)
Fixpoint runs_from (cls : ascii -> bool) (inside : bool) (s : string) : nat :=
  match s with
  | EmptyString => 0
  | String c s' =>
      if cls c then ((if inside then 0 else 1) + runs_from cls true s')%nat
      else runs_from cls false s'
  end.

(** The number of maximal runs of characters of the class. *)
Definition maximal_runs (cls : ascii -> bool) (s : string) : nat :=
  runs_from cls false s.

(** The length of the run of the class at the start of [s]. *)
Fixpoint run_length (cls : ascii -> bool) (s : string) : nat :=
  match s with
  | EmptyString => 0
  | String c s' => if cls c then S (run_length cls s') else 0
  end.

Definition word_count (text : string) : nat :=
  (maximal_runs Py.is_word text + occurrences is_symbol text)%nat.
Definition bracket_count (text : string) : nat := occurrences is_bracket text.
Definition whitespace_run_count (text : string) : nat :=
  maximal_runs Py.is_space text.

(** An order in which a set can be iterated: each element once. *)
Definition admissible_order (order : gset string -> list string) : Prop :=
  forall X, NoDup (order X) /\ forall x, x ∈ order X <-> x ∈ X.

Definition reverse_elements (X : gset string) : list string := reverse (elements X).

(** Java text with a line comment, and Java text whose string literals
    hold the two comment delimiters. *)
Definition double_quote : string := String (ascii_of_nat 34) EmptyString.

Definition java_line_comment : string := "int a; // note" ++ nl ++ "int b;".

Definition java_string_literals : string :=
  "String s = " ++ double_quote ++ "/*" ++ double_quote
  ++ "; int n = 1; String t = " ++ double_quote ++ "*/" ++ double_quote ++ ";".

Definition is_newline (c : ascii) : bool := Ascii.eqb newline c.

(** [A extends B], [B implements C, D], and [C] refers back to [A]. *)
Definition corpus_abcd : FileTree :=
  {| files :=
       [ ("decompiled_output/sources/p/A.java", Some "class A extends p.B { }");
         ("decompiled_output/sources/p/B.java", Some "class B implements p.C, p.D { }");
         ("decompiled_output/sources/p/C.java", Some "interface C { p.A a; }");
         ("decompiled_output/sources/p/D.java", Some "interface D { }") ];
     dirs := ["decompiled_output"; "decompiled_output/sources"] |}.

Definition g_abcd : JadxContextGenerator := _build_class_index (init corpus_abcd).

(** The same generator with a budget of three tokens. *)
Definition g_small : JadxContextGenerator :=
  {| MAX_TOKENS := 3; conn := conn g_abcd; tree := tree g_abcd |}.

(** [A] refers to [q.X] and [q.Y]. *)
Definition corpus_refs : FileTree :=
  {| files :=
       [ ("decompiled_output/sources/q/A.java", Some "class A { q.X x; q.Y y; }");
         ("decompiled_output/sources/q/X.java", Some "class X { }");
         ("decompiled_output/sources/q/Y.java", Some "class Y { }") ];
     dirs := ["decompiled_output"; "decompiled_output/sources"] |}.

Definition g_refs : JadxContextGenerator := _build_class_index (init corpus_refs).

(** The (class name, file) pairs in the order [_build_class_index] meets
    them: the search paths in order, the files of each in scan order, the
    files whose name cannot be derived left out. *)
Definition discovered_in (t : FileTree) (root : string) : list (string * string) :=
  match rglob_java t root with
  | Some paths =>
      omap (fun f => option_map (fun n => (n, f)) (Path.dotted_name f root)) paths
  | None => []
  end.

Definition discovered (t : FileTree) : list (string * string) :=
  flat_map (discovered_in t) search_paths.

(** The file of the last pair with the given class name. *)
Fixpoint last_found (class_name : string) (pairs : list (string * string))
    : option string :=
  match pairs with
  | [] => None
  | (n, f) :: pairs' =>
      match last_found class_name pairs' with
      | Some f' => Some f'
      | None => if String.eqb n class_name then Some f else None
      end
  end.

(** The row [_build_class_index] writes for a pair. *)
Definition row_of (class_name file : string) : ClassRow :=
  {| file_path := file; package := package_of class_name |}.

(** The files a scan of the search paths yields, in order. *)
Definition scanned (t : FileTree) : list string :=
  flat_map (fun root => default [] (rglob_java t root)) search_paths.

(** [class_name.split('.')[-1]] *)
Definition simple_name (class_name : string) : string :=
  Py.last_of (Py.split "."%char class_name).

(** The separator of a dotted name. *)
Definition is_dot (c : ascii) : bool := Ascii.eqb c "."%char.

(** The special characters of an [fnmatch] pattern. *)
Definition is_special (c : ascii) : bool := Re.one_of "*?[" c.

(** A whitespace character other than the plain space. *)
Definition is_odd_space (c : ascii) : bool :=
  Py.is_space c && negb (Ascii.eqb c " "%char).

Definition not_space (c : ascii) : bool := negb (Py.is_space c).

(** The conventional place of a class under a search path:
    [root/p/q/Name.java] for [p.q.Name]. *)
Definition class_path (root class_name : string) : string :=
  root ++ "/" ++ Py.replace_char "."%char "/"%char class_name ++ ".java".

Definition is_slash (c : ascii) : bool := Ascii.eqb c "/"%char.

(** The characters outside a class. *)
Definition outside (cls : ascii -> bool) (c : ascii) : bool := negb (cls c).

Definition is_comma (c : ascii) : bool := Ascii.eqb c ","%char.

(** A match of a sequence read item by item: the lengths [r] cut a prefix of
    [s] into one piece per item, made of characters of the class of the
    item, of length 1 for a single character and at least 1 for [+]. *)
Fixpoint segments_ok (p : Re.branch) (r : list nat) (s : string) : Prop :=
  match p, r with
  | [], [] => True
  | a :: p', n :: r' =>
      (n <= String.length s)%nat
      /\ occurrences (outside (Re.cls a)) (Py.take n s) = 0%nat
      /\ match Re.qt a with
         | Re.One => n = 1%nat
         | Re.Plus => (1 <= n)%nat
         | _ => True
         end
      /\ segments_ok p' r' (Py.drop n s)
  | _, _ => False
  end.

(** The units [calculate_tokens] counts before the product by 1.2. *)
Definition token_units (text : string) : nat :=
  (word_count text + bracket_count text + whitespace_run_count text)%nat.

(** The number [main] prints after the context:
    [generator.calculate_tokens(context)]. *)
Definition reported_tokens (set_order : gset string -> list string)
    (g : JadxContextGenerator) (target_class : string)
    (whitelist blacklist : list string) : Z :=
  calculate_tokens
    (generate_context set_order g target_class (Some whitelist) (Some blacklist)).

(** The units of a text that follows a word character ([iw]) or a
    whitespace character ([isp]). *)
Definition units_from (iw isp : bool) (t : string) : nat :=
  (runs_from Py.is_word iw t + occurrences is_symbol t + occurrences is_bracket t
   + runs_from Py.is_space isp t)%nat.

(** [r] counts no more units than [s], whatever comes before them. *)
Definition shrinks (r s : string) : Prop :=
  forall iw isp, (units_from iw isp r <= units_from iw isp s)%nat.

(** The test the scan of [find_class_file] makes on one file:
    [class_name.lower() in potential_class_name.lower()]. *)
Definition scan_match (class_name root java_file : string) : bool :=
  match Path.dotted_name java_file root with
  | Some potential_class_name =>
      Py.contains (Py.lower class_name) (Py.lower potential_class_name)
  | None => false
  end.

(** The state after an iteration that only pops the class at the front of
    the queue. *)
Definition popped (st : TraversalState) (queue : list string) : TraversalState :=
  {| context_parts := context_parts st;
     processed_classes := processed_classes st;
     classes_to_process := queue;
     total_tokens := total_tokens st;
     appended := appended st |}.

(** * Properties *)

(** ** The loop, case by case *)

Section TraversalFacts.

Variable set_order : gset string -> list string.
Variable usage : JadxContextGenerator -> string -> gset string.
Variable g : JadxContextGenerator.
Variables whitelist blacklist : list string.

Local Abbreviation body := (loop_body set_order usage g whitelist blacklist).
Local Abbreviation step_of := (step_of set_order usage g whitelist blacklist).
Local Abbreviation queue_known := (queue_known set_order g).
Local Abbreviation cond := (loop_cond g).
Local Abbreviation runs := (run set_order usage g whitelist blacklist).
Local Abbreviation related := (related_classes set_order usage g).
Local Abbreviation cost c := (cost_of g c).

Lemma is_empty_spec (s : string) : Py.is_empty s = true <-> s = "".
Proof. destruct s; simpl; split; congruence. Qed.

Lemma loop_body_step st c queue :
  classes_to_process st = c :: queue -> step_of st c queue (body st).
Proof.
  intros Hq. unfold loop_body. rewrite Hq.
  case_bool_decide as Hin; [apply step_skip; auto|].
  destruct (matches_package_filter c whitelist blacklist) eqn:Hf; simpl;
    [|apply step_skip; auto].
  destruct (Py.is_empty (get_class_content g c)) eqn:He.
  { apply step_skip. right; right. by apply is_empty_spec. }
  assert (get_class_content g c <> "") as Hne.
  { intros E. apply is_empty_spec in E. congruence. }
  unfold cost_of.
  destruct (Z.leb_spec
              (total_tokens st
               + calculate_tokens (optimize_code_tokens (get_class_content g c)))
              (MAX_TOKENS g)).
  - by apply step_append.
  - by apply step_over_budget.
Qed.

Lemma loop_cond_true st :
  cond st = true ->
  exists c queue, classes_to_process st = c :: queue
                  /\ (total_tokens st < MAX_TOKENS g)%Z.
Proof.
  unfold loop_cond. destruct (classes_to_process st) as [|c q]; [done|].
  intros H%Z.ltb_lt. eauto.
Qed.

(** A property kept by every iteration holds all along the run. *)
Lemma run_invariant (P : TraversalState -> Prop) :
  (forall st, P st -> cond st = true -> P (body st)) ->
  forall fuel st, P st -> P (runs fuel st).
Proof.
  intros Hstep fuel. induction fuel as [|n IH]; intros st HP; simpl; [done|].
  destruct (cond st) eqn:Hc; [|done]. apply IH. by apply Hstep.
Qed.

Lemma run_stable fuel fuel' st :
  cond (runs fuel st) = false -> (fuel <= fuel')%nat -> runs fuel' st = runs fuel st.
Proof.
  revert fuel' st. induction fuel as [|n IH]; intros fuel' st Hc Hle; simpl in *.
  - destruct fuel'; simpl; [done|]. by rewrite Hc.
  - destruct fuel' as [|m]; [lia|]. simpl.
    destruct (cond st) eqn:E; [|done]. apply IH; [done|lia].
Qed.

(** ** Termination *)

Lemma scan_files_elem c root paths f :
  scan_files c root paths = Some f -> f ∈ paths.
Proof.
  induction paths as [|p ps IH]; simpl; [done|].
  destruct (Path.dotted_name p root) as [n|].
  - destruct (Py.contains _ _).
    + intros [= ->]. apply list_elem_of_here.
    + intros H. apply list_elem_of_further. auto.
  - intros H. apply list_elem_of_further. auto.
Qed.

Lemma rglob_java_elem t root paths f :
  rglob_java t root = Some paths -> f ∈ paths -> f ∈ map fst (files t).
Proof.
  unfold rglob_java. destruct (existsb _ _); [|done].
  intros [= <-] Hin. apply list_elem_of_In in Hin. apply list_elem_of_In.
  apply filter_In in Hin. tauto.
Qed.

Lemma scan_paths_elem t c roots f :
  scan_paths t c roots = Some f -> f ∈ map fst (files t).
Proof.
  induction roots as [|r rs IH]; simpl; [done|].
  destruct (rglob_java t r) as [paths|] eqn:Hg; [|done].
  destruct (scan_files c r paths) as [f'|] eqn:Hs; [|done].
  intros [= ->]. eauto using rglob_java_elem, scan_files_elem.
Qed.

Lemma find_class_file_known c p :
  find_class_file g c = Some p -> p ∈ known_files g.
Proof.
  unfold find_class_file, known_files, index_lookup.
  destruct (conn g ≫= _) as [row|] eqn:Hrow.
  - intros [= <-]. destruct (conn g) as [idx|]; [|done]. simpl in Hrow.
    apply elem_of_app. left.
    apply (list_elem_of_fmap_2 (fun kv => file_path (snd kv)) _ (c, row)).
    by apply elem_of_map_to_list.
  - intros H. apply elem_of_app. right. by eapply scan_paths_elem.
Qed.

(** The names pushed for a class with content are those of its file. *)
Lemma related_of_file c :
  get_class_content g c <> "" ->
  exists p, p ∈ known_files g /\ related c = related_in_file set_order g p.
Proof.
  unfold get_class_content, related_classes, get_class_hierarchy_with, related_in_file.
  destruct (find_class_file g c) as [p|] eqn:Hf; [|done].
  destruct (Py.is_empty p); [done|].
  destruct (read_text (tree g) p) as [content|] eqn:Hr; [|done].
  intros _. exists p. rewrite Hr. simpl. eauto using find_class_file_known.
Qed.

Lemma related_in_universe target c x :
  get_class_content g c <> "" -> x ∈ related c -> x ∈ universe set_order g target.
Proof.
  intros Hc Hx. destruct (related_of_file c Hc) as (p & Hp & E).
  unfold universe. apply list_elem_of_further.
  apply list_elem_of_In, in_flat_map. exists p.
  split; apply list_elem_of_In; [done|]. by rewrite <- E.
Qed.

Local Abbreviation pend := (pending set_order usage g).

Lemma pending_mono names c P : (pend names ({[c]} ∪ P) <= pend names P)%nat.
Proof.
  induction names as [|u us IH]; simpl; [done|].
  repeat case_bool_decide; try lia. set_solver.
Qed.

(** Processing a pending name removes its visit and its pushes. *)
Lemma pending_processed names c P :
  c ∈ names -> c ∉ P ->
  (pend names ({[c]} ∪ P) + S (length (related c)) <= pend names P)%nat.
Proof.
  induction names as [|u us IH]; intros Hin Hnot; [by inversion Hin|].
  simpl. destruct (decide (u = c)) as [->|Hne].
  - rewrite bool_decide_eq_true_2
      by (apply elem_of_union_l, elem_of_singleton; reflexivity).
    rewrite bool_decide_eq_false_2 by done.
    pose proof (pending_mono us c P). lia.
  - assert (c ∈ us) as Hus by (inversion Hin; subst; done).
    specialize (IH Hus Hnot). clear Hin.
    repeat case_bool_decide; try lia; set_solver.
Qed.

Local Abbreviation size_of target := (measure set_order usage g target).

Lemma body_decreases target st :
  queue_known target st -> cond st = true ->
  queue_known target (body st) /\ (size_of target (body st) < size_of target st)%nat.
Proof.
  intros Hk Hc. destruct (loop_cond_true st Hc) as (c & queue & Hq & _).
  unfold queue_known, measure in *. rewrite Hq in *.
  apply Forall_cons in Hk as [Hcu Hqu].
  destruct (loop_body_step st c queue Hq) as [Hs|Hn Hf Hne Hb|Hn Hf Hne Hb];
    cbn [classes_to_process processed_classes length].
  - split; [done|lia].
  - split.
    + apply Forall_app. split; [done|].
      apply Forall_forall. intros x Hx. by eapply related_in_universe.
    + rewrite length_app.
      pose proof (pending_processed _ c (processed_classes st) Hcu Hn). lia.
  - split; [done|].
    pose proof (pending_mono (universe set_order g target) c (processed_classes st)).
    lia.
Qed.

Lemma run_ends target fuel st :
  queue_known target st -> (size_of target st <= fuel)%nat ->
  cond (runs fuel st) = false.
Proof.
  revert st. induction fuel as [|n IH]; intros st Hk Hm; simpl.
  - unfold measure in Hm. unfold loop_cond.
    destruct (classes_to_process st); [done|simpl in Hm; lia].
  - destruct (cond st) eqn:Hc; [|done].
    destruct (body_decreases target st Hk Hc) as [Hk' Hlt].
    apply IH; [done|lia].
Qed.

Lemma initial_queue_known target : queue_known target (initial_state target).
Proof.
  unfold queue_known, universe. simpl. apply Forall_cons. split; [|done].
  apply list_elem_of_here.
Qed.

Local Abbreviation final := (final_state set_order usage g whitelist blacklist).

(** The loop has ended in [final_state]. *)
Lemma final_state_ended target : cond (final target) = false.
Proof.
  apply (run_ends target); [apply initial_queue_known|done].
Qed.

(** More iterations than [enough_fuel] change nothing. *)
Lemma final_state_stable target fuel :
  (enough_fuel set_order usage g target <= fuel)%nat ->
  runs fuel (initial_state target) = final target.
Proof.
  intros H. apply run_stable; [apply final_state_ended|done].
Qed.

End TraversalFacts.

(** ** The runs of two settings that push the same names *)

Lemma loop_body_ext so1 u1 so2 u2 g wl bl :
  (forall c, get_class_content g c <> EmptyString ->
             related_classes so1 u1 g c = related_classes so2 u2 g c) ->
  forall st, loop_body so1 u1 g wl bl st = loop_body so2 u2 g wl bl st.
Proof.
  intros Hrel st. unfold loop_body.
  destruct (classes_to_process st) as [|c queue]; [done|].
  case_bool_decide; [done|].
  destruct (negb _); [done|].
  destruct (Py.is_empty (get_class_content g c)) eqn:He; [done|].
  rewrite Hrel; [done|].
  intros E. apply is_empty_spec in E. congruence.
Qed.

Lemma run_ext so1 u1 so2 u2 g wl bl :
  (forall c, get_class_content g c <> EmptyString ->
             related_classes so1 u1 g c = related_classes so2 u2 g c) ->
  forall fuel st, run so1 u1 g wl bl fuel st = run so2 u2 g wl bl fuel st.
Proof.
  intros Hrel fuel. induction fuel as [|n IH]; intros st; simpl; [done|].
  destruct (loop_cond g st); [|done].
  rewrite (loop_body_ext so1 u1 so2 u2 g wl bl Hrel). apply IH.
Qed.

Lemma final_state_ext so1 u1 so2 u2 g wl bl target :
  (forall c, get_class_content g c <> EmptyString ->
             related_classes so1 u1 g c = related_classes so2 u2 g c) ->
  final_state so1 u1 g wl bl target = final_state so2 u2 g wl bl target.
Proof.
  intros Hrel.
  set (n := Nat.max (enough_fuel so1 u1 g target) (enough_fuel so2 u2 g target)).
  rewrite <- (final_state_stable so1 u1 g wl bl target n) by lia.
  rewrite <- (final_state_stable so2 u2 g wl bl target n) by lia.
  by apply run_ext.
Qed.

(** The names pushed do not depend on the usage tracer. *)
Lemma related_classes_usage so u1 u2 g c :
  related_classes so u1 g c = related_classes so u2 g c.
Proof.
  unfold related_classes, get_class_hierarchy_with.
  destruct (find_class_file g c) as [p|]; [|done].
  destruct (Py.is_empty p); [done|].
  by destruct (read_text (tree g) p).
Qed.

(** ** The budget *)

(** C3. When the budget is not negative, the counter [total_tokens] never
    exceeds [MAX_TOKENS]: not after any number of iterations, not when the
    loop has ended, and an iteration that appends a body leaves the counter
    within the budget. *)
Theorem total_tokens_within_budget so usage g wl bl target :
  (0 <= MAX_TOKENS g)%Z ->
  (forall fuel,
     (total_tokens (run so usage g wl bl fuel (initial_state target))
      <= MAX_TOKENS g)%Z)
  /\ loop_cond g (final_state so usage g wl bl target) = false
  /\ (total_tokens (final_state so usage g wl bl target) <= MAX_TOKENS g)%Z
  /\ (forall st,
        context_parts (loop_body so usage g wl bl st) <> context_parts st ->
        (total_tokens (loop_body so usage g wl bl st) <= MAX_TOKENS g)%Z).
Proof.
  intros Hmax.
  assert (forall fuel,
            (total_tokens (run so usage g wl bl fuel (initial_state target))
             <= MAX_TOKENS g)%Z) as Hall.
  { intros fuel.
    apply (run_invariant so usage g wl bl
             (fun st => (total_tokens st <= MAX_TOKENS g)%Z)); [|done].
    intros st Hle Hc. destruct (loop_cond_true g st Hc) as (c & queue & Hq & _).
    by destruct (loop_body_step so usage g wl bl st c queue Hq). }
  split; [done|]. split; [apply final_state_ended|]. split; [apply Hall|].
  intros st Hparts.
  destruct (classes_to_process st) as [|c queue] eqn:Hq.
  { exfalso. apply Hparts. unfold loop_body. by rewrite Hq. }
  destruct (loop_body_step so usage g wl bl st c queue Hq); simpl in *; done.
Qed.

Lemma total_tokens_within_budget_witness :
  (0 <= MAX_TOKENS g_abcd)%Z
  /\ (total_tokens (final_state elements trace_usage g_abcd [] [] "p.A")
      <= MAX_TOKENS g_abcd)%Z.
Proof.
  assert (0 <= MAX_TOKENS g_abcd)%Z as H by (vm_compute; discriminate).
  split; [exact H|].
  exact (proj1 (proj2 (proj2
           (total_tokens_within_budget elements trace_usage g_abcd [] [] "p.A" H)))).
Defined.

(** ** Visiting each class once *)

(** C4. The loop ends on every corpus, cyclic or not, and all along the run
    the appended names are pairwise distinct and [context_parts] holds
    exactly one body for each of them, in order. *)
Theorem each_class_appended_once so usage g wl bl target :
  loop_cond g (final_state so usage g wl bl target) = false
  /\ forall fuel,
       NoDup (appended (run so usage g wl bl fuel (initial_state target)))
       /\ context_parts (run so usage g wl bl fuel (initial_state target))
          = map (fun c => optimize_code_tokens (get_class_content g c))
                (appended (run so usage g wl bl fuel (initial_state target))).
Proof.
  split; [apply final_state_ended|]. intros fuel.
  set (P := fun st =>
              NoDup (appended st)
              /\ (forall c, c ∈ appended st -> c ∈ processed_classes st)
              /\ context_parts st
                 = map (fun c => optimize_code_tokens (get_class_content g c))
                       (appended st)).
  assert (P (run so usage g wl bl fuel (initial_state target))) as (H1 & _ & H3);
    [|done].
  apply run_invariant.
  - intros st (Hnd & Hsub & Hparts) Hc.
    destruct (loop_cond_true g st Hc) as (c & queue & Hq & _).
    destruct (loop_body_step so usage g wl bl st c queue Hq)
      as [Hs|Hn Hf Hne Hb|Hn Hf Hne Hb]; unfold P; simpl.
    + done.
    + split; [|split].
      * apply NoDup_app. split; [done|]. split; [|apply NoDup_singleton].
        intros x Hx Hx'. apply list_elem_of_singleton in Hx'. subst x. auto.
      * intros x [Hx|Hx]%elem_of_app; [set_solver|].
        apply list_elem_of_singleton in Hx. set_solver.
      * by rewrite map_app, Hparts.
    + split; [done|]. split; [|done]. intros x Hx. set_solver.
  - unfold P. simpl. split; [apply NoDup_nil_2|]. split; [|done].
    intros c Hc. by inversion Hc.
Qed.

(** ** A class over the budget *)

(** C6. A class whose cost does not fit in what is left of the budget is
    marked processed and nothing else changes: no body is appended and no
    name is pushed.  When the budget is below the cost of the target class,
    the context is the empty string and [total_tokens] is 0 at the end. *)
Theorem over_budget_class_not_appended so usage g wl bl :
  (forall st c queue,
     classes_to_process st = c :: queue ->
     c ∉ processed_classes st ->
     matches_package_filter c wl bl = true ->
     get_class_content g c <> EmptyString ->
     (MAX_TOKENS g < total_tokens st + cost_of g c)%Z ->
     loop_body so usage g wl bl st
     = {| context_parts := context_parts st;
          processed_classes := {[c]} ∪ processed_classes st;
          classes_to_process := queue;
          total_tokens := total_tokens st;
          appended := appended st |})
  /\ (forall target,
        (MAX_TOKENS g < cost_of g target)%Z ->
        generate_context_with so usage g wl bl target = EmptyString
        /\ total_tokens (final_state so usage g wl bl target) = 0%Z).
Proof.
  split.
  - intros st c queue Hq Hn Hf Hne Hb. unfold cost_of in Hb.
    destruct (loop_body_step so usage g wl bl st c queue Hq) as [Hs|? ? ? Hle|];
      [|lia|done].
    destruct Hs as [?|[?|?]]; [done|congruence|done].
  - intros target Hb. unfold cost_of in Hb.
    set (P := fun st =>
                context_parts st = []
                /\ total_tokens st = 0%Z
                /\ (classes_to_process st = [target] \/ classes_to_process st = [])).
    assert (P (final_state so usage g wl bl target)) as (H1 & H2 & _).
    { unfold final_state.
      apply (run_invariant so usage g wl bl P); [|unfold P; simpl; auto].
      intros st (Hp & Ht & Hqs) Hc.
      destruct (loop_cond_true g st Hc) as (c & queue & Hq & _).
      destruct Hqs as [Hqs|Hqs]; rewrite Hqs in Hq; [|done].
      injection Hq as <- <-.
      destruct (loop_body_step so usage g wl bl st target [] Hqs)
        as [Hs|? ? ? Hle|]; unfold P; simpl; auto.
      lia. }
    unfold generate_context_with. by rewrite H1.
Qed.

Lemma over_budget_class_not_appended_witness :
  generate_context_with elements trace_usage g_small [] [] "p.A" = EmptyString
  /\ total_tokens (final_state elements trace_usage g_small [] [] "p.A") = 0%Z.
Proof.
  refine (proj2 (over_budget_class_not_appended elements trace_usage g_small [] [])
                "p.A" _).
  vm_compute. reflexivity.
Defined.

(** ** The usage tracer *)

(** C10. The context does not depend on the usage tracer: whatever function
    stands for [trace_usage], the traversal pushes the same names and
    returns the same string.  The tracer's result is stored in the field
    [using_classes] of the hierarchy of every class with content, and the
    queue only ever holds the target and names pushed for appended classes,
    which are their superclasses, interfaces and referenced names. *)
Theorem context_independent_of_usage so usage g target wl bl :
  generate_context_with so usage g (default [] wl) (default [] bl) target
  = generate_context so g target wl bl
  /\ (forall c, get_class_content g c <> EmptyString ->
                using_classes (get_class_hierarchy_with usage g c) = usage g c)
  /\ (forall c, related_classes so usage g c
                = (superclasses (get_class_hierarchy g c)
                   ++ interfaces (get_class_hierarchy g c)
                   ++ so (referenced_classes (get_class_hierarchy g c)))%list)
  /\ (forall fuel x,
        x ∈ classes_to_process
              (run so usage g (default [] wl) (default [] bl) fuel
                   (initial_state target)) ->
        x = target
        \/ exists c,
             c ∈ appended (run so usage g (default [] wl) (default [] bl) fuel
                               (initial_state target))
             /\ x ∈ related_classes so usage g c).
Proof.
  split; [|split; [|split]].
  - unfold generate_context, generate_context_with.
    rewrite (final_state_ext so usage so trace_usage); [done|].
    intros c _. apply related_classes_usage.
  - intros c. unfold get_class_content, get_class_hierarchy_with.
    destruct (find_class_file g c) as [p|]; [|done].
    destruct (Py.is_empty p); [done|].
    by destruct (read_text (tree g) p).
  - intros c. apply (related_classes_usage so usage trace_usage).
  - intros fuel.
    apply (run_invariant so usage g (default [] wl) (default [] bl)
             (fun st => forall x, x ∈ classes_to_process st ->
                x = target
                \/ exists c, c ∈ appended st /\ x ∈ related_classes so usage g c)).
    + intros st Hinv Hc. destruct (loop_cond_true g st Hc) as (c & queue & Hq & _).
      rewrite Hq in Hinv.
      assert (forall x, x ∈ queue ->
                x = target
                \/ exists c, c ∈ appended st /\ x ∈ related_classes so usage g c)
        as Hrest.
      { intros x Hx. apply Hinv. by apply list_elem_of_further. }
      destruct (loop_body_step so usage g (default [] wl) (default [] bl) st c queue Hq);
        simpl; [done| |done].
      intros x [Hx|Hx]%elem_of_app.
      * destruct (Hrest x Hx) as [?|(c' & ? & ?)]; [by left|right].
        exists c'. split; [|done]. apply elem_of_app. by left.
      * right. exists c. split; [|done]. apply elem_of_app. right.
        apply list_elem_of_here.
    + simpl. intros x Hx. left. by apply list_elem_of_singleton in Hx.
Qed.

(** ** The package filter *)

Lemma first_match_existsb package patterns hit otherwise :
  first_match package patterns hit otherwise
  = if existsb (Fnmatch.fnmatch package) patterns then hit else otherwise.
Proof.
  induction patterns as [|pat pats IH]; simpl; [done|].
  by destruct (Fnmatch.fnmatch package pat).
Qed.

(** C2. [matches_package_filter] rejects when some blacklist pattern matches
    the name, whatever the whitelist; otherwise it accepts when some
    whitelist pattern matches; otherwise it accepts exactly when the
    whitelist is empty. *)
Theorem matches_package_filter_spec package whitelist blacklist :
  matches_package_filter package whitelist blacklist
  = if existsb (Fnmatch.fnmatch package) blacklist then false
    else if existsb (Fnmatch.fnmatch package) whitelist then true
    else match whitelist with [] => true | _ :: _ => false end.
Proof.
  unfold matches_package_filter. rewrite !first_match_existsb.
  by destruct whitelist.
Qed.

(** C1, as the specification states it, fails: the package of [p.A] is [p],
    which the whitelist [p.*] does not match, and yet [p.A] is not skipped
    (its body and those of the classes it reaches are appended). *)
Lemma filter_on_package_counterexample :
  package_of "p.A" = "p"
  /\ matches_package_filter (package_of "p.A") ["p.*"] [] = false
  /\ appended (final_state elements trace_usage g_abcd ["p.*"] [] "p.A")
     = ["p.A"; "p.B"; "p.C"; "p.D"].
Proof. repeat split; vm_compute; reflexivity. Qed.

(** C1, amended. The filter is evaluated against the full dotted name of the
    class popped from the queue.  A class not yet processed is skipped (the
    iteration only pops it) exactly when its name fails
    [matches_package_filter] or no content is retrieved for it; it is marked
    processed exactly when its name passes and it has content; and every
    name whose body is appended passes the filter. *)
Theorem filter_on_class_name so usage g wl bl :
  (forall st c queue,
     classes_to_process st = c :: queue ->
     c ∉ processed_classes st ->
     (loop_body so usage g wl bl st = popped st queue
      <-> matches_package_filter c wl bl = false
          \/ get_class_content g c = EmptyString)
     /\ (c ∈ processed_classes (loop_body so usage g wl bl st)
         <-> matches_package_filter c wl bl = true
             /\ get_class_content g c <> EmptyString))
  /\ (forall target fuel c,
        c ∈ appended (run so usage g wl bl fuel (initial_state target)) ->
        matches_package_filter c wl bl = true).
Proof.
  split.
  - intros st c queue Hq Hn. unfold popped.
    destruct (loop_body_step so usage g wl bl st c queue Hq)
      as [Hs|_ Hf Hne _|_ Hf Hne _]; cbn [processed_classes].
    + assert (matches_package_filter c wl bl = false
              \/ get_class_content g c = EmptyString) as Hs'
        by (destruct Hs as [?|[?|?]]; [done|by left|by right]).
      split; [done|]. split; [done|].
      intros [Hf Hne]. destruct Hs' as [?|?]; congruence.
    + split.
      * split; [|intros [?|?]; congruence].
        intros H. apply (f_equal processed_classes) in H.
        cbn [processed_classes] in H. exfalso. apply Hn. rewrite <- H.
        apply elem_of_union_l. by apply elem_of_singleton.
      * split; [done|]. intros _.
        apply elem_of_union_l. by apply elem_of_singleton.
    + split.
      * split; [|intros [?|?]; congruence].
        intros H. apply (f_equal processed_classes) in H.
        cbn [processed_classes] in H. exfalso. apply Hn. rewrite <- H.
        apply elem_of_union_l. by apply elem_of_singleton.
      * split; [done|]. intros _.
        apply elem_of_union_l. by apply elem_of_singleton.
  - intros target fuel.
    apply (run_invariant so usage g wl bl
             (fun st => forall c, c ∈ appended st ->
                                  matches_package_filter c wl bl = true)).
    + intros st Hinv Hc. destruct (loop_cond_true g st Hc) as (c & queue & Hq & _).
      destruct (loop_body_step so usage g wl bl st c queue Hq); simpl; [done| |done].
      intros x [Hx|Hx]%elem_of_app; [auto|].
      by apply list_elem_of_singleton in Hx as ->.
    + simpl. intros c Hc. by inversion Hc.
Qed.

Lemma filter_on_class_name_witness :
  "p.A" ∈ processed_classes
            (loop_body elements trace_usage g_abcd ["p.*"] [] (initial_state "p.A")).
Proof.
  refine (proj2 (proj2 (proj1 (filter_on_class_name elements trace_usage g_abcd
                                 ["p.*"] [])
                              (initial_state "p.A") "p.A" [] eq_refl _)) _).
  - apply not_elem_of_empty.
  - split; [vm_compute; reflexivity|vm_compute; discriminate].
Defined.

(** ** The class index lookup *)

(** C5, as the specification states it, fails: [A] is not a key of the index
    built from the corpus, and yet [find_class_file] returns a file for it
    (the one of [p.A], found by the scan of the source roots), and the class
    is not skipped: its body is appended. *)
Lemma lookup_not_exact_counterexample :
  index_lookup g_abcd "A" = None
  /\ find_class_file g_abcd "A" = Some "decompiled_output/sources/p/A.java"
  /\ appended (final_state elements trace_usage g_abcd [] [] "A")
     = ["A"; "p.B"; "p.C"; "p.D"; "p.A"].
Proof. repeat split; vm_compute; reflexivity. Qed.

Lemma scan_files_cons class_name root p paths :
  scan_files class_name root (p :: paths)
  = if scan_match class_name root p then Some p
    else scan_files class_name root paths.
Proof.
  unfold scan_match. cbn [scan_files].
  by destruct (Path.dotted_name p root).
Qed.

(** The scan of one source root returns the first file that passes the
    test. *)
Lemma scan_files_first class_name root paths f :
  scan_files class_name root paths = Some f <->
  exists before after,
    paths = (before ++ f :: after)%list
    /\ scan_match class_name root f = true
    /\ Forall (fun p => scan_match class_name root p = false) before.
Proof.
  split.
  - induction paths as [|p ps IH]; [done|]. rewrite scan_files_cons.
    destruct (scan_match class_name root p) eqn:Hp.
    + intros [= <-]. exists [], ps. split; [done|]. split; [done|constructor].
    + intros H. destruct (IH H) as (before & after & -> & Hf & Hb).
      exists (p :: before), after. split; [done|]. split; [done|].
      by constructor.
  - intros (before & after & -> & Hf & Hb).
    induction Hb as [|b bs Hb _ IH]; cbn [app]; rewrite scan_files_cons.
    + by rewrite Hf.
    + by rewrite Hb.
Qed.

Lemma scan_files_none class_name root paths :
  scan_files class_name root paths = None <->
  Forall (fun p => scan_match class_name root p = false) paths.
Proof.
  induction paths as [|p ps IH]; [split; [constructor|done]|].
  rewrite scan_files_cons, Forall_cons.
  destruct (scan_match class_name root p); [split; [done|by intros [? _]]|].
  rewrite IH. split; [done|by intros [_ ?]].
Qed.

(** The scan of the source roots returns what the scan of the first root
    with a match returns. *)
Lemma scan_paths_first t class_name roots f :
  scan_paths t class_name roots = Some f <->
  exists before root after paths,
    roots = (before ++ root :: after)%list
    /\ rglob_java t root = Some paths
    /\ scan_files class_name root paths = Some f
    /\ Forall (fun r => forall ps, rglob_java t r = Some ps ->
                                   scan_files class_name r ps = None) before.
Proof.
  split.
  - induction roots as [|root rs IH]; [done|]. cbn [scan_paths].
    destruct (rglob_java t root) as [paths|] eqn:Hg.
    + destruct (scan_files class_name root paths) as [f0|] eqn:Hs.
      * intros [= <-]. exists [], root, rs, paths.
        split; [done|]. split; [done|]. split; [done|constructor].
      * intros H. destruct (IH H) as (before & r & after & ps & -> & ? & ? & Hb).
        exists (root :: before), r, after, ps.
        split; [done|]. split; [done|]. split; [done|].
        constructor; [|done]. intros ps' Hps'. congruence.
    + intros H. destruct (IH H) as (before & r & after & ps & -> & ? & ? & Hb).
      exists (root :: before), r, after, ps.
      split; [done|]. split; [done|]. split; [done|].
      constructor; [|done]. intros ps' Hps'. congruence.
  - intros (before & root & after & paths & -> & Hg & Hs & Hb).
    induction Hb as [|b bs Hb _ IH]; cbn [app scan_paths].
    + by rewrite Hg, Hs.
    + destruct (rglob_java t b) as [ps|]; [|exact IH].
      by rewrite (Hb ps eq_refl).
Qed.

(** C5, amended. [find_class_file] first makes an exact-match point query on
    the class name: when the name is a key of the index it returns the
    recorded file path.  When the name is not a key it returns what the scan
    of the source roots finds: in the first source root, in order, that has
    a match, the first file, in scan order, whose dotted name contains the
    name, letter case ignored; and nothing when no file matches.  No content
    is retrieved exactly when no file is found, or the file found is
    unreadable or empty; the traversal then skips the class (the iteration
    only pops it). *)
Theorem find_class_file_spec g class_name :
  (forall row, index_lookup g class_name = Some row ->
               find_class_file g class_name = Some (file_path row))
  /\ (index_lookup g class_name = None ->
      find_class_file g class_name = scan_paths (tree g) class_name search_paths)
  /\ (forall root paths f,
        scan_files class_name root paths = Some f <->
        exists before after,
          paths = (before ++ f :: after)%list
          /\ scan_match class_name root f = true
          /\ Forall (fun p => scan_match class_name root p = false) before)
  /\ (forall root paths,
        scan_files class_name root paths = None <->
        Forall (fun p => scan_match class_name root p = false) paths)
  /\ (forall roots f,
        scan_paths (tree g) class_name roots = Some f <->
        exists before root after paths,
          roots = (before ++ root :: after)%list
          /\ rglob_java (tree g) root = Some paths
          /\ scan_files class_name root paths = Some f
          /\ Forall (fun r => forall ps, rglob_java (tree g) r = Some ps ->
                                         scan_files class_name r ps = None)
                    before)
  /\ (get_class_content g class_name = EmptyString <->
      find_class_file g class_name = None
      \/ exists f, find_class_file g class_name = Some f
                   /\ (f = EmptyString
                       \/ read_text (tree g) f = None
                       \/ read_text (tree g) f = Some EmptyString))
  /\ (get_class_content g class_name = EmptyString ->
      forall so usage wl bl st queue,
        classes_to_process st = class_name :: queue ->
        loop_body so usage g wl bl st = popped st queue).
Proof.
  split; [|split; [|split; [|split; [|split; [|split]]]]].
  - intros row H. unfold find_class_file. by rewrite H.
  - intros H. unfold find_class_file. by rewrite H.
  - intros root paths f. apply scan_files_first.
  - intros root paths. apply scan_files_none.
  - intros roots f. apply scan_paths_first.
  - unfold get_class_content.
    destruct (find_class_file g class_name) as [f|]; [|split; [by left|done]].
    destruct (Py.is_empty f) eqn:He.
    + apply is_empty_spec in He as ->. split; [|done].
      intros _. right. exists EmptyString. split; [done|by left].
    + assert (f <> EmptyString) as Hne
        by (intros ->; by rewrite (proj2 (is_empty_spec EmptyString) eq_refl) in He).
      destruct (read_text (tree g) f) as [content|] eqn:Hr.
      * split.
        -- intros ->. right. exists f. split; [done|]. by right; right.
        -- intros [?|(f' & [= <-] & [?|[?|?]])]; congruence.
      * split; [|done]. intros _. right. exists f. split; [done|]. by right; left.
  - intros Hc so usage wl bl st queue Hq.
    unfold loop_body, popped. rewrite Hq, Hc. simpl.
    case_bool_decide; [done|]. by destruct (negb _).
Qed.

Lemma find_class_file_spec_witness :
  scan_files "Foo" "src" ["src/p/Bar.java"; "src/p/Foo.java"; "src/p/FooBar.java"]
  = Some "src/p/Foo.java".
Proof.
  refine (proj2 (proj1 (proj2 (proj2 (find_class_file_spec g_abcd "Foo")))
                       "src" _ "src/p/Foo.java") _).
  exists ["src/p/Bar.java"], ["src/p/FooBar.java"].
  split; [reflexivity|]. split; [vm_compute; reflexivity|].
  constructor; [vm_compute; reflexivity|constructor].
Defined.

(** ** The order of the output *)

Lemma elements_admissible : admissible_order elements.
Proof.
  intros X. split; [apply NoDup_elements|]. intros x. apply elem_of_elements.
Qed.

Lemma reverse_elements_admissible : admissible_order reverse_elements.
Proof.
  intros X. unfold reverse_elements. split.
  - rewrite reverse_Permutation. apply NoDup_elements.
  - intros x. rewrite elem_of_reverse. apply elem_of_elements.
Qed.

(** C9, as the specification states it, fails: the referenced names are kept
    in a set, and two orders in which that set can be iterated give two
    different contexts for the same corpus and the same target; one of them
    pushes the names [q.Y], [q.X] that were discovered in the order [q.X],
    [q.Y]. *)
Lemma output_order_counterexample :
  admissible_order elements
  /\ admissible_order reverse_elements
  /\ generate_context elements g_refs "q.A" None None
     <> generate_context reverse_elements g_refs "q.A" None None
  /\ extract_references (get_class_content g_refs "q.A") = ["q.X"; "q.Y"]
  /\ related_classes elements trace_usage g_refs "q.A" = ["q.Y"; "q.X"].
Proof.
  split; [apply elements_admissible|].
  split; [apply reverse_elements_admissible|].
  split; [vm_compute; discriminate|].
  split; vm_compute; reflexivity.
Qed.

(** C9, amended. When a class is appended the queue grows by its superclass,
    then its interfaces in declared order, then its referenced names in the
    order in which the set of them is iterated; and two runs on the same
    corpus and target whose iteration orders agree on the sets of referenced
    names of the files of the corpus return the same context. *)
Theorem output_order_determined so1 so2 usage g wl bl target :
  (forall path content,
     path ∈ known_files g ->
     read_text (tree g) path = Some content ->
     so1 (list_to_set (extract_references content))
     = so2 (list_to_set (extract_references content))) ->
  generate_context_with so1 usage g wl bl target
  = generate_context_with so2 usage g wl bl target
  /\ (forall st c queue,
        classes_to_process st = c :: queue ->
        c ∉ processed_classes st ->
        matches_package_filter c wl bl = true ->
        get_class_content g c <> EmptyString ->
        (total_tokens st + cost_of g c <= MAX_TOKENS g)%Z ->
        classes_to_process (loop_body so1 usage g wl bl st)
        = (queue
           ++ superclasses (get_class_hierarchy g c)
           ++ interfaces (get_class_hierarchy g c)
           ++ so1 (referenced_classes (get_class_hierarchy g c)))%list).
Proof.
  intros Hagree. split.
  - unfold generate_context_with.
    rewrite (final_state_ext so1 usage so2 usage); [done|].
    intros c Hc.
    destruct (related_of_file so1 usage g c Hc) as (p & Hp & E1).
    destruct (related_of_file so2 usage g c Hc) as (p' & Hp' & E2).
    rewrite E1, E2.
    revert E1 E2. unfold related_classes, get_class_hierarchy_with, related_in_file.
    unfold get_class_content in Hc.
    destruct (find_class_file g c) as [q|] eqn:Hf; [|done].
    destruct (Py.is_empty q); [done|].
    destruct (read_text (tree g) q) as [content|] eqn:Hr; [|done]. simpl.
    intros <- <-.
    rewrite (Hagree q content); [done| |done].
    by eapply find_class_file_known.
  - intros st c queue Hq Hn Hf Hne Hb. unfold cost_of in Hb.
    destruct (loop_body_step so1 usage g wl bl st c queue Hq) as [Hs| |]; simpl.
    + destruct Hs as [?|[?|?]]; [done|congruence|done].
    + f_equal. apply (related_classes_usage so1 usage trace_usage).
    + lia.
Qed.

Lemma output_order_determined_witness :
  generate_context_with elements trace_usage g_refs [] [] "q.A"
  = generate_context_with elements trace_usage g_refs [] [] "q.A".
Proof.
  exact (proj1 (output_order_determined elements elements trace_usage g_refs [] []
                  "q.A" (fun _ _ _ _ => eq_refl))).
Defined.

(** ** The token estimate *)

Lemma greedy_anywhere c s : Re.greedy c Re.anywhere s = Some [run_length c s].
Proof.
  induction s as [|x s IH]; simpl; [done|].
  destruct (c x); [|done]. by rewrite IH.
Qed.

(** A match of [c+] is the run of [c] at the start of the text. *)
Lemma match_len_plus c s :
  Re.match_len [[Re.Atom c Re.Plus]] s
  = match s with
    | String x s' => if c x then Some (S (run_length c s')) else None
    | EmptyString => None
    end.
Proof.
  unfold Re.match_len, Re.match_here, Re.match_branch. simpl.
  destruct s as [|x s]; [done|]. destruct (c x); [|done].
  rewrite greedy_anywhere. simpl. by rewrite Nat.add_0_r.
Qed.

Lemma match_len_one c s :
  Re.match_len [[Re.Atom c Re.One]] s
  = match s with
    | String x s' => if c x then Some 1%nat else None
    | EmptyString => None
    end.
Proof.
  unfold Re.match_len, Re.match_here, Re.match_branch. simpl.
  destruct s as [|x s]; [done|]. by destruct (c x).
Qed.

Lemma match_len_words s :
  Re.match_len re_words s
  = match s with
    | String x s' =>
        if Py.is_word x then Some (S (run_length Py.is_word s'))
        else if is_symbol x then Some 1%nat else None
    | EmptyString => None
    end.
Proof.
  unfold Re.match_len, re_words, Re.match_here, Re.match_branch. simpl.
  destruct s as [|x s]; [done|]. destruct (Py.is_word x).
  - rewrite greedy_anywhere. simpl. by rewrite Nat.add_0_r.
  - by destruct (is_symbol x).
Qed.

Lemma findall_from_skip re k x s :
  Re.findall_from re (S k) (String x s) = Re.findall_from re k s.
Proof. done. Qed.

Lemma findall_from_here re x s :
  Re.findall_from re 0 (String x s)
  = match Re.match_len re (String x s) with
    | Some (S l) => Py.take (S l) (String x s) :: Re.findall_from re l s
    | Some O => EmptyString :: Re.findall_from re 0 s
    | None => Re.findall_from re 0 s
    end.
Proof. done. Qed.

Lemma findall_from_empty re k :
  Re.match_len re EmptyString = None -> Re.findall_from re k EmptyString = [].
Proof. intros H. destruct k; simpl; by rewrite H. Qed.

(** [findall] of [c+] finds the maximal runs of [c]. *)
Lemma findall_plus_runs c s :
  length (Re.findall_from [[Re.Atom c Re.Plus]] 0 s) = runs_from c false s
  /\ length (Re.findall_from [[Re.Atom c Re.Plus]] (run_length c s) s)
     = runs_from c true s.
Proof.
  induction s as [|x s [IH1 IH2]].
  - split; by rewrite findall_from_empty by apply match_len_plus.
  - assert (length (Re.findall_from [[Re.Atom c Re.Plus]] 0 (String x s))
            = runs_from c false (String x s)) as H1.
    { rewrite findall_from_here, match_len_plus. cbn [runs_from].
      destruct (c x); cbn [length]; [by rewrite IH2|done]. }
    split; [done|]. cbn [run_length runs_from] in *.
    destruct (c x) eqn:Hc.
    + by rewrite findall_from_skip.
    + by rewrite H1.
Qed.

(** [findall] of a one-character class finds its occurrences. *)
Lemma findall_one_occurrences c s :
  length (Re.findall_from [[Re.Atom c Re.One]] 0 s) = occurrences c s.
Proof.
  induction s as [|x s IH].
  - by rewrite findall_from_empty by apply match_len_one.
  - rewrite findall_from_here, match_len_one. cbn [occurrences].
    destruct (c x); cbn [length]; by rewrite IH.
Qed.

Lemma word_not_symbol x : Py.is_word x = true -> is_symbol x = false.
Proof. unfold is_symbol. by intros ->. Qed.

(** [findall] of [\w+|[^\w\s]] finds the runs of word characters and the
    single symbols. *)
Lemma findall_words_count s :
  length (Re.findall_from re_words 0 s)
  = (runs_from Py.is_word false s + occurrences is_symbol s)%nat
  /\ length (Re.findall_from re_words (run_length Py.is_word s) s)
     = (runs_from Py.is_word true s + occurrences is_symbol s)%nat.
Proof.
  induction s as [|x s [IH1 IH2]].
  - split; by rewrite findall_from_empty by apply match_len_words.
  - assert (length (Re.findall_from re_words 0 (String x s))
            = (runs_from Py.is_word false (String x s)
               + occurrences is_symbol (String x s))%nat) as H1.
    { rewrite findall_from_here, match_len_words. cbn [runs_from occurrences].
      destruct (Py.is_word x) eqn:Hw.
      - rewrite (word_not_symbol x Hw). cbn [length]. rewrite IH2. lia.
      - destruct (is_symbol x); cbn [length]; rewrite IH1; lia. }
    split; [done|]. cbn [run_length runs_from occurrences] in *.
    destruct (Py.is_word x) eqn:Hw.
    + rewrite findall_from_skip, IH2. rewrite (word_not_symbol x Hw). lia.
    + by rewrite H1.
Qed.

(** Runs and occurrences in a text that is extended on either side. *)
Lemma runs_from_flag c s :
  (runs_from c true s <= runs_from c false s <= S (runs_from c true s))%nat.
Proof. destruct s as [|x s]; simpl; [lia|]. destruct (c x); lia. Qed.

Lemma append_cons x (s t : string) : String x s ++ t = String x (s ++ t).
Proof. done. Qed.

Lemma append_empty (t : string) : EmptyString ++ t = t.
Proof. done. Qed.

Lemma runs_from_app_r c (inside : bool) (s after : string) :
  (runs_from c inside s <= runs_from c inside (s ++ after))%nat.
Proof.
  revert inside. induction s as [|x s IH]; intros inside.
  - cbn [runs_from]. lia.
  - rewrite append_cons. cbn [runs_from].
    destruct (c x); [|apply IH].
    specialize (IH true). destruct inside; lia.
Qed.

Lemma runs_from_app_l c (inside : bool) (before s : string) :
  (runs_from c false s
   <= (if inside then 1 else 0) + runs_from c inside (before ++ s))%nat.
Proof.
  revert inside. induction before as [|x b IH]; intros inside.
  - rewrite append_empty. pose proof (runs_from_flag c s). destruct inside; lia.
  - rewrite append_cons. cbn [runs_from]. destruct (c x).
    + specialize (IH true). cbn beta iota in IH. destruct inside; lia.
    + specialize (IH false). cbn beta iota in IH. destruct inside; lia.
Qed.

Lemma maximal_runs_extend c (before s after : string) :
  (maximal_runs c s <= maximal_runs c (before ++ s ++ after))%nat.
Proof.
  unfold maximal_runs.
  pose proof (runs_from_app_l c false before (s ++ after)) as H1.
  pose proof (runs_from_app_r c false s after) as H2.
  cbn beta iota in H1. lia.
Qed.

Lemma occurrences_app c (s t : string) :
  occurrences c (s ++ t) = (occurrences c s + occurrences c t)%nat.
Proof.
  induction s as [|x s IH]; [done|].
  rewrite append_cons. cbn [occurrences]. rewrite IH. lia.
Qed.

Lemma occurrences_extend c (before s after : string) :
  (occurrences c s <= occurrences c (before ++ s ++ after))%nat.
Proof. rewrite !occurrences_app. lia. Qed.

(** Rounding to 53 bits and the product by 1.2 are monotone. *)

Section FloatFacts.

Local Open Scope Z_scope.

Lemma round_to_bounds s p :
  (0 <= s -> 0 <= p ->
   p / 2 ^ s * 2 ^ s <= Float.round_to s p <= (p / 2 ^ s + 1) * 2 ^ s)%Z.
Proof.
  intros Hs Hp. unfold Float.round_to.
  assert (0 < 2 ^ s)%Z by (apply Z.pow_pos_nonneg; lia).
  destruct (_ || _); nia.
Qed.

Lemma round_to_mono s p p' :
  (1 <= s -> 0 <= p <= p' -> Float.round_to s p <= Float.round_to s p')%Z.
Proof.
  intros Hs Hp.
  assert (0 < 2 ^ s)%Z as HS by (apply Z.pow_pos_nonneg; lia).
  assert (p / 2 ^ s <= p' / 2 ^ s)%Z as Hq by (apply Z.div_le_mono; lia).
  destruct (Z.eq_dec (p / 2 ^ s) (p' / 2 ^ s)) as [E|NE].
  - unfold Float.round_to. rewrite <- E.
    assert (p mod 2 ^ s <= p' mod 2 ^ s)%Z as Hr.
    { pose proof (Z.div_mod p (2 ^ s)). pose proof (Z.div_mod p' (2 ^ s)).
      rewrite <- E in *. nia. }
    apply Z.mul_le_mono_nonneg_r; [lia|].
    destruct (Z.ltb_spec (2 ^ (s - 1)) (p mod 2 ^ s));
      destruct (Z.ltb_spec (2 ^ (s - 1)) (p' mod 2 ^ s));
      destruct (Z.eqb_spec (p mod 2 ^ s) (2 ^ (s - 1)));
      destruct (Z.eqb_spec (p' mod 2 ^ s) (2 ^ (s - 1)));
      destruct (Z.odd (p / 2 ^ s)); simpl; lia.
  - pose proof (round_to_bounds s p). pose proof (round_to_bounds s p'). nia.
Qed.

(** A number of at least 54 bits lies between [2^52] and [2^53] times the
    unit it is rounded to. *)
Lemma round53_unit p :
  (2 ^ 53 <= p ->
   1 <= Z.log2 p - 52
   /\ 2 ^ 52 * 2 ^ (Z.log2 p - 52) <= p < 2 ^ 53 * 2 ^ (Z.log2 p - 52))%Z.
Proof.
  intros Hp.
  assert (53 <= Z.log2 p)%Z as Hl.
  { change 53%Z with (Z.log2 (2 ^ 53)). apply Z.log2_le_mono. lia. }
  split; [lia|].
  destruct (Z.log2_spec p) as [H1 H2]; [lia|].
  replace (Z.log2 p) with (52 + (Z.log2 p - 52))%Z in H1 at 1 by lia.
  replace (Z.succ (Z.log2 p)) with (53 + (Z.log2 p - 52))%Z in H2 by lia.
  rewrite Z.pow_add_r in H1, H2 by lia. lia.
Qed.

(** A number of at least 54 bits is rounded within its binade. *)
Lemma round53_binade p :
  (2 ^ 53 <= p ->
   2 ^ 52 * 2 ^ (Z.log2 p - 52) <= Float.round_to (Z.log2 p - 52) p
   <= 2 ^ 53 * 2 ^ (Z.log2 p - 52))%Z.
Proof.
  intros Hp. destruct (round53_unit p Hp) as (Hs & Hlo & Hhi).
  set (s := (Z.log2 p - 52)%Z) in *.
  assert (0 < 2 ^ s)%Z as HS by (apply Z.pow_pos_nonneg; lia).
  pose proof (round_to_bounds s p).
  assert (2 ^ 52 <= p / 2 ^ s)%Z by (apply Z.div_le_lower_bound; lia).
  assert (p / 2 ^ s < 2 ^ 53)%Z by (apply Z.div_lt_upper_bound; lia).
  nia.
Qed.

Lemma round53_mono p p' :
  (0 <= p <= p' -> Float.round53 p <= Float.round53 p')%Z.
Proof.
  intros Hp. unfold Float.round53.
  destruct (Z.ltb_spec p (2 ^ 53)); destruct (Z.ltb_spec p' (2 ^ 53)); try lia.
  - pose proof (round53_binade p' ltac:(lia)).
    assert (2 ^ 1 <= 2 ^ (Z.log2 p' - 52))%Z
      by (apply Z.pow_le_mono_r; [lia|]; destruct (round53_unit p'); lia).
    lia.
  - assert (Z.log2 p <= Z.log2 p')%Z as Hl by (apply Z.log2_le_mono; lia).
    destruct (round53_unit p ltac:(lia)) as (Hs & _).
    destruct (Z.eq_dec (Z.log2 p) (Z.log2 p')) as [E|NE].
    + rewrite <- E. apply round_to_mono; lia.
    + pose proof (round53_binade p ltac:(lia)) as B.
      pose proof (round53_binade p' ltac:(lia)) as B'.
      assert (2 ^ 53 * 2 ^ (Z.log2 p - 52) <= 2 ^ 52 * 2 ^ (Z.log2 p' - 52))%Z;
        [|lia].
      replace (Z.log2 p' - 52)%Z with ((Z.log2 p - 52) + (Z.log2 p' - Z.log2 p))%Z
        by lia.
      rewrite Z.pow_add_r by lia.
      assert (2 ^ 1 <= 2 ^ (Z.log2 p' - Z.log2 p))%Z
        by (apply Z.pow_le_mono_r; lia).
      assert (0 < 2 ^ (Z.log2 p - 52))%Z by (apply Z.pow_pos_nonneg; lia).
      change (2 ^ 53)%Z with (2 ^ 52 * 2 ^ 1)%Z. nia.
Qed.

Lemma round53_nonneg p : (0 <= p -> 0 <= Float.round53 p)%Z.
Proof.
  intros Hp. apply (round53_mono 0 p). lia.
Qed.

Lemma int_mul_1_2_mono n n' :
  (0 <= n <= n' -> Float.int_mul_1_2 n <= Float.int_mul_1_2 n')%Z.
Proof.
  intros Hn. unfold Float.int_mul_1_2.
  apply Z.div_le_mono; [lia|]. apply round53_mono.
  pose proof (round53_mono n n' Hn). pose proof (round53_nonneg n ltac:(lia)).
  unfold Float.significand_1_2. nia.
Qed.

(** Rounding moves a number by at most half a unit. *)
Lemma round_to_error s p :
  1 <= s -> 0 <= p ->
  p - 2 ^ (s - 1) <= Float.round_to s p <= p + 2 ^ (s - 1).
Proof.
  intros Hs Hp. unfold Float.round_to.
  assert (2 ^ s = 2 * 2 ^ (s - 1)) as HS.
  { replace s with (Z.succ (s - 1)) at 1 by lia. apply Z.pow_succ_r. lia. }
  assert (0 < 2 ^ (s - 1)) by (apply Z.pow_pos_nonneg; lia).
  pose proof (Z.div_mod p (2 ^ s) ltac:(lia)) as Hdm.
  pose proof (Z.mod_pos_bound p (2 ^ s) ltac:(lia)) as Hr.
  destruct (Z.ltb_spec (2 ^ (s - 1)) (p mod 2 ^ s));
    destruct (Z.eqb_spec (p mod 2 ^ s) (2 ^ (s - 1)));
    destruct (Z.odd (p / 2 ^ s)); simpl; nia.
Qed.

(** Below [2^50] the product by the double 1.2, truncated, is the integer
    part of the exact product by 6/5. *)
Lemma int_mul_1_2_exact n :
  0 <= n < 2 ^ 50 -> Float.int_mul_1_2 n = 6 * n / 5.
Proof.
  intros Hn. unfold Float.int_mul_1_2.
  assert (Float.round53 n = n) as ->.
  { unfold Float.round53. destruct (Z.ltb_spec n (2 ^ 53)); lia. }
  destruct (Z_lt_le_dec n 2) as [Hsmall|Hbig].
  { assert (n = 0 \/ n = 1) as [-> | ->] by lia; reflexivity. }
  unfold Float.significand_1_2.
  set (p := n * 5404319552844595).
  assert (2 ^ 53 <= p) as Hp by (unfold p; lia).
  assert (p < 2 ^ 103) as Hp' by (unfold p; nia).
  unfold Float.round53. destruct (Z.ltb_spec p (2 ^ 53)) as [?|_]; [lia|].
  destruct (round53_unit p Hp) as (Hs & Hlo & Hhi).
  set (s := Z.log2 p - 52) in *.
  assert (s <= 50) as Hs50.
  { destruct (Z_le_gt_dec s 50) as [?|Hgt]; [done|]. exfalso.
    assert (2 ^ 51 <= 2 ^ s) by (apply Z.pow_le_mono_r; lia). lia. }
  assert (2 ^ s = 2 * 2 ^ (s - 1)) as HS.
  { replace s with (Z.succ (s - 1)) at 1 by lia. apply Z.pow_succ_r. lia. }
  assert (0 < 2 ^ (s - 1)) as Hhalf by (apply Z.pow_pos_nonneg; lia).
  assert (2 ^ (s - 1) <= 2 ^ 49) as Hhalf' by (apply Z.pow_le_mono_r; lia).
  pose proof (round_to_error s p Hs ltac:(lia)) as Herr.
  pose proof (Z.div_mod (6 * n) 5 ltac:(lia)) as Hk.
  pose proof (Z.mod_pos_bound (6 * n) 5 ltac:(lia)) as Hj.
  set (k := 6 * n / 5) in *. set (j := (6 * n) mod 5) in *.
  assert (5 * p = (5 * k + j) * 2 ^ 52 - n) as H5p by (unfold p; lia).
  symmetry. apply (Z.div_unique_pos _ _ _ (Float.round_to s p - k * 2 ^ 52)); [|lia].
  split; [|lia].
  destruct (Z.eq_dec j 0) as [Hj0|Hj0]; [|lia].
  (* 6 n is a multiple of 5: the product is just below k 2^52 and rounds up to it *)
  destruct (Z_le_gt_dec (k * 2 ^ 52) (Float.round_to s p)) as [?|Hlt]; [lia|].
  exfalso.
  assert (2 ^ 52 = 2 ^ (52 - s) * 2 ^ s) as H52.
  { rewrite <- Z.pow_add_r by lia. f_equal. lia. }
  assert (0 < 2 ^ s) as HSpos by lia.
  unfold Float.round_to in Hlt, Herr.
  match type of Hlt with
  | context [if ?b then ?x else ?y] => set (q' := if b then x else y) in *
  end.
  assert (k * 2 ^ (52 - s) * 2 ^ s = k * 2 ^ 52) as HK by (rewrite H52; ring).
  assert (q' < k * 2 ^ (52 - s)) as Hq.
  { apply (Z.mul_lt_mono_pos_r (2 ^ s)); [done|]. lia. }
  assert ((q' + 1) * 2 ^ s <= k * 2 ^ (52 - s) * 2 ^ s) as Hq'
    by (apply Z.mul_le_mono_nonneg_r; lia).
  lia.
Qed.

End FloatFacts.

(** C8. [calculate_tokens] is the product by 1.2, taken as an integer, of
    the number of words (maximal runs of word characters, and single
    characters that are neither word characters nor spaces) plus the number
    of brackets plus the number of maximal runs of whitespace.  The product
    is the one of binary64; for fewer than [2^50] units it is the integer
    part of the exact product.  The estimate never decreases when the text
    is extended, before or after. *)
Theorem calculate_tokens_spec text :
  calculate_tokens text
  = Float.int_mul_1_2
      (Z.of_nat (word_count text + bracket_count text + whitespace_run_count text))
  /\ ((Z.of_nat (word_count text + bracket_count text + whitespace_run_count text)
       < 2 ^ 50)%Z ->
      calculate_tokens text
      = (Z.of_nat (word_count text + bracket_count text + whitespace_run_count text)
         * 12 / 10)%Z)
  /\ (forall before after,
        (calculate_tokens text <= calculate_tokens (before ++ text ++ after))%Z).
Proof.
  assert (forall t, calculate_tokens t
                    = Float.int_mul_1_2
                        (Z.of_nat (word_count t + bracket_count t
                                   + whitespace_run_count t))) as Heq.
  { intros t. unfold calculate_tokens, Re.findall, re_brackets, re_spaces.
    rewrite (proj1 (findall_words_count t)), findall_one_occurrences,
      (proj1 (findall_plus_runs Py.is_space t)).
    unfold word_count, bracket_count, whitespace_run_count, maximal_runs.
    f_equal. lia. }
  split; [apply Heq|]. split.
  - intros Hsmall. rewrite Heq, int_mul_1_2_exact by lia.
    set (n := Z.of_nat _).
    replace (n * 12)%Z with (2 * (6 * n))%Z by lia.
    change 10%Z with (2 * 5)%Z. by rewrite Z.div_mul_cancel_l.
  - intros before after. rewrite !Heq. apply int_mul_1_2_mono.
    unfold word_count, bracket_count, whitespace_run_count.
    pose proof (maximal_runs_extend Py.is_word before text after).
    pose proof (maximal_runs_extend Py.is_space before text after).
    pose proof (occurrences_extend is_symbol before text after).
    pose proof (occurrences_extend is_bracket before text after).
    lia.
Qed.

(** ** The normalisation *)

(** [re.sub] only writes characters of the text and of the replacement. *)
Lemma sub_from_occurrences re repl c :
  occurrences c repl = 0%nat ->
  forall s skip,
    occurrences c s = 0%nat -> occurrences c (Re.sub_from re repl skip s) = 0%nat.
Proof.
  intros Hrepl s. induction s as [|x s IH]; intros skip Hs.
  - cbn [Re.sub_from]. by destruct (Re.match_len re EmptyString).
  - cbn [occurrences] in Hs.
    assert (c x = false) as Hx by (destruct (c x); [simpl in Hs; lia|done]).
    assert (occurrences c s = 0%nat) as Hs' by (rewrite Hx in Hs; exact Hs).
    destruct skip as [|k]; cbn [Re.sub_from]; [|by apply IH].
    destruct (Re.match_len re (String x s)) as [[|l]|].
    + rewrite occurrences_app, Hrepl. cbn [occurrences]. rewrite Hx. by apply IH.
    + rewrite occurrences_app, Hrepl. by apply IH.
    + cbn [occurrences]. rewrite Hx. by apply IH.
Qed.

Lemma space_not_newline x : Py.is_space x = false -> is_newline x = false.
Proof.
  unfold is_newline. destruct (Ascii.eqb_spec newline x) as [<-|]; [|done].
  by vm_compute.
Qed.

(** After the whitespace is collapsed no newline is left. *)
Lemma sub_spaces_no_newline s skip :
  occurrences is_newline (Re.sub_from re_spaces " " skip s) = 0%nat.
Proof.
  revert skip. induction s as [|x s IH]; intros skip.
  - cbn [Re.sub_from]. unfold re_spaces. by rewrite match_len_plus.
  - destruct skip as [|k]; cbn [Re.sub_from]; [|apply IH].
    unfold re_spaces. rewrite match_len_plus. fold re_spaces.
    destruct (Py.is_space x) eqn:Hx.
    + rewrite occurrences_app, IH. reflexivity.
    + cbn [occurrences]. by rewrite (space_not_newline x Hx), IH.
Qed.

Lemma no_newline_cons x s :
  occurrences is_newline (String x s) = 0%nat ->
  is_newline x = false /\ occurrences is_newline s = 0%nat.
Proof. cbn [occurrences]. destruct (is_newline x); [simpl; lia|done]. Qed.

Lemma lazy_none c (k : string -> option (list nat)) :
  (forall t, occurrences is_newline t = 0%nat -> k t = None) ->
  forall s, occurrences is_newline s = 0%nat -> Re.lazy c k s = None.
Proof.
  intros Hk s. induction s as [|x s IH]; intros Hs; cbn [Re.lazy].
  - by rewrite Hk.
  - rewrite Hk by done. cbn [Re.skip0].
    destruct (c x); [|done].
    rewrite IH; [done|]. by apply no_newline_cons in Hs as [_ ?].
Qed.

Lemma match_newline_none t :
  occurrences is_newline t = 0%nat ->
  Re.match_branch Re.anywhere [Re.chr newline] t = None.
Proof.
  intros Ht. destruct t as [|x t]; [done|].
  apply no_newline_cons in Ht as [Hx _].
  cbn [Re.match_branch Re.chr Re.qt Re.cls]. unfold is_newline in Hx. by rewrite Hx.
Qed.

Lemma match_branch_chr final a p x s :
  Re.match_branch final (Re.chr a :: p) (String x s)
  = if Ascii.eqb a x then option_map (cons 1%nat) (Re.match_branch final p s)
    else None.
Proof. done. Qed.

Lemma match_branch_chr_empty final a p :
  Re.match_branch final (Re.chr a :: p) EmptyString = None.
Proof. done. Qed.

Lemma match_branch_lazy final c p :
  Re.match_branch final (Re.Atom c Re.LazyStar :: p)
  = Re.lazy c (Re.match_branch final p).
Proof. done. Qed.

(** A line comment needs a newline to end at, a blank line one to start at. *)
Lemma match_line_comment_none s :
  occurrences is_newline s = 0%nat -> Re.match_len re_line_comment s = None.
Proof.
  intros Hs. unfold Re.match_len, Re.match_here, re_line_comment.
  cbn [Re.lit app].
  destruct s as [|x s]; [done|]. apply no_newline_cons in Hs as [_ Hs].
  rewrite match_branch_chr. destruct (Ascii.eqb "/" x); [|done].
  destruct s as [|y s]; [done|]. apply no_newline_cons in Hs as [_ Hs].
  rewrite match_branch_chr. destruct (Ascii.eqb "/" y); [|done].
  rewrite match_branch_lazy.
  by rewrite (lazy_none Re.dot _ match_newline_none s Hs).
Qed.

Lemma match_blank_lines_none s :
  occurrences is_newline s = 0%nat -> Re.match_len re_blank_lines s = None.
Proof.
  intros Hs. unfold Re.match_len, Re.match_here, re_blank_lines.
  cbn [Re.match_branch Re.chr Re.qt Re.cls].
  destruct s as [|x s]; [done|]. apply no_newline_cons in Hs as [Hx _].
  unfold is_newline in Hx. by rewrite Hx.
Qed.

Lemma sub_no_match re repl :
  (forall t, occurrences is_newline t = 0%nat -> Re.match_len re t = None) ->
  forall s, occurrences is_newline s = 0%nat -> Re.sub re repl s = s.
Proof.
  intros Hre s. unfold Re.sub. induction s as [|x s IH]; intros Hs; cbn [Re.sub_from].
  - by rewrite Hre.
  - rewrite Hre by done. rewrite IH; [done|].
    by apply no_newline_cons in Hs as [_ ?].
Qed.

(** C7. The normalisation collapses the whitespace first, and the newlines
    with it, so the two later steps that need a newline never change the
    text: for every input the result is the one of whitespace collapsing,
    brace tightening, block-comment removal and stripping alone.  A line
    comment stays in the output, on one line with the code that followed it;
    and the block-comment pattern removes code between two string literals
    that hold the comment delimiters. *)
Theorem optimize_code_tokens_keeps_line_comments :
  (forall code,
     optimize_code_tokens code
     = Py.strip
         (Re.sub re_block_comment EmptyString
            (Re.sub re_close_brace "}"
               (Re.sub re_open_brace "{" (Re.sub re_spaces " " code)))))
  /\ optimize_code_tokens java_line_comment = "int a; // note int b;"
  /\ optimize_code_tokens java_string_literals
     = "String s = " ++ double_quote ++ double_quote ++ ";".
Proof.
  split; [|split; vm_compute; reflexivity].
  intros code. unfold optimize_code_tokens.
  set (c1 := Re.sub re_spaces " " code).
  set (c2 := Re.sub re_open_brace "{" c1).
  set (c3 := Re.sub re_close_brace "}" c2).
  assert (occurrences is_newline c3 = 0%nat) as H3.
  { unfold c3, c2, c1, Re.sub.
    do 2 (apply sub_from_occurrences; [reflexivity|]).
    apply sub_spaces_no_newline. }
  rewrite (sub_no_match re_line_comment nl match_line_comment_none c3 H3).
  rewrite (sub_no_match re_blank_lines nl match_blank_lines_none); [done|].
  unfold Re.sub. by apply sub_from_occurrences.
Qed.

(** * Further properties *)

(** ** The traversal *)

(** X1. A class is marked processed only after it passed the package filter
    and its content was retrieved: every processed name passes
    [matches_package_filter] and has content, and every appended name is
    processed. *)
Theorem processed_passed_filter so usage g wl bl target fuel :
  (forall c,
     c ∈ processed_classes (run so usage g wl bl fuel (initial_state target)) ->
     matches_package_filter c wl bl = true
     /\ get_class_content g c <> EmptyString)
  /\ (forall c,
        c ∈ appended (run so usage g wl bl fuel (initial_state target)) ->
        c ∈ processed_classes (run so usage g wl bl fuel (initial_state target))).
Proof.
  apply (run_invariant so usage g wl bl
           (fun st =>
              (forall c, c ∈ processed_classes st ->
                         matches_package_filter c wl bl = true
                         /\ get_class_content g c <> EmptyString)
              /\ (forall c, c ∈ appended st -> c ∈ processed_classes st))).
  - intros st [Hp Ha] Hc. destruct (loop_cond_true g st Hc) as (c & queue & Hq & _).
    destruct (loop_body_step so usage g wl bl st c queue Hq)
      as [Hs|Hn Hf Hne Hb|Hn Hf Hne Hb]; cbn [processed_classes appended].
    + done.
    + split.
      * intros x [Hx|Hx]%elem_of_union; [|by apply Hp].
        apply elem_of_singleton in Hx. by subst x.
      * intros x [Hx|Hx]%elem_of_app.
        -- apply elem_of_union_r. by apply Ha.
        -- apply list_elem_of_singleton in Hx. subst x.
           apply elem_of_union_l. by apply elem_of_singleton.
    + split.
      * intros x [Hx|Hx]%elem_of_union; [|by apply Hp].
        apply elem_of_singleton in Hx. by subst x.
      * intros x Hx. apply elem_of_union_r. by apply Ha.
  - split.
    + intros c Hc. by apply not_elem_of_empty in Hc.
    + intros c Hc. by inversion Hc.
Qed.

(** X2. The counter is the sum of the costs of the appended classes: at
    every point of the run [total_tokens] equals the sum of
    [calculate_tokens] of the normalised bodies in [context_parts]. *)
Theorem total_tokens_is_sum so usage g wl bl target fuel :
  total_tokens (run so usage g wl bl fuel (initial_state target))
  = fold_right Z.add 0%Z
      (map calculate_tokens
           (context_parts (run so usage g wl bl fuel (initial_state target)))).
Proof.
  apply (run_invariant so usage g wl bl
           (fun st => total_tokens st
                      = fold_right Z.add 0%Z (map calculate_tokens (context_parts st))));
    [|done].
  intros st Hsum Hc. destruct (loop_cond_true g st Hc) as (c & queue & Hq & _).
  destruct (loop_body_step so usage g wl bl st c queue Hq);
    cbn [total_tokens context_parts]; [done| |done].
  rewrite map_app, fold_right_app. cbn [map fold_right].
  rewrite Hsum. clear.
  induction (map calculate_tokens (context_parts st)) as [|z zs IH];
    cbn [fold_right]; lia.
Qed.

(** X3. A target that the filter rejects, or that has no content (no file
    found, file unreadable or empty), gives the empty context: nothing is
    appended, nothing is marked processed and the counter stays 0. *)
Theorem rejected_target_gives_empty_context so usage g wl bl target :
  matches_package_filter target wl bl = false
  \/ get_class_content g target = EmptyString ->
  generate_context_with so usage g wl bl target = EmptyString
  /\ processed_classes (final_state so usage g wl bl target) = ∅
  /\ total_tokens (final_state so usage g wl bl target) = 0%Z.
Proof.
  intros Hrej.
  set (P := fun st =>
              context_parts st = []
              /\ processed_classes st = ∅
              /\ total_tokens st = 0%Z
              /\ (classes_to_process st = [target] \/ classes_to_process st = [])).
  assert (P (final_state so usage g wl bl target)) as (H1 & H2 & H3 & _).
  { unfold final_state.
    apply (run_invariant so usage g wl bl P); [|unfold P; cbn; auto].
    intros st (Hp & Hpr & Ht & Hqs) Hc.
    destruct (loop_cond_true g st Hc) as (c & queue & Hq & _).
    destruct Hqs as [Hqs|Hqs]; rewrite Hqs in Hq; [|done].
    injection Hq as <- <-.
    destruct (loop_body_step so usage g wl bl st target [] Hqs)
      as [Hs|? Hf Hne ?|? Hf Hne ?]; unfold P;
      cbn [context_parts processed_classes total_tokens classes_to_process].
    - auto.
    - destruct Hrej; congruence.
    - destruct Hrej; congruence. }
  unfold generate_context_with. by rewrite H1.
Qed.

Lemma rejected_target_gives_empty_context_witness :
  generate_context_with elements trace_usage g_abcd [] ["p.*"] "p.A" = EmptyString
  /\ processed_classes (final_state elements trace_usage g_abcd [] ["p.*"] "p.A") = ∅
  /\ total_tokens (final_state elements trace_usage g_abcd [] ["p.*"] "p.A") = 0%Z.
Proof.
  refine (rejected_target_gives_empty_context
            elements trace_usage g_abcd [] ["p.*"] "p.A" _).
  left. vm_compute. reflexivity.
Defined.

(** X4. The target comes first: when the budget is positive and the target
    passes the filter, has content and fits in the budget, the first body of
    the output is the normalised text of the target. *)
Theorem target_body_first so usage g wl bl target :
  (0 < MAX_TOKENS g)%Z ->
  matches_package_filter target wl bl = true ->
  get_class_content g target <> EmptyString ->
  (cost_of g target <= MAX_TOKENS g)%Z ->
  exists bodies names,
    context_parts (final_state so usage g wl bl target)
    = optimize_code_tokens (get_class_content g target) :: bodies
    /\ appended (final_state so usage g wl bl target) = target :: names.
Proof.
  intros Hmax Hf Hne Hb. unfold final_state, enough_fuel, measure.
  cbn [initial_state classes_to_process length Nat.add run].
  assert (loop_cond g (initial_state target) = true) as ->.
  { unfold loop_cond. cbn. by apply Z.ltb_lt. }
  set (P := fun st =>
              exists bodies names,
                context_parts st
                = optimize_code_tokens (get_class_content g target) :: bodies
                /\ appended st = target :: names).
  apply (run_invariant so usage g wl bl P).
  - intros st (bodies & names & Hp & Ha) Hc.
    destruct (loop_cond_true g st Hc) as (c & queue & Hq & _).
    destruct (loop_body_step so usage g wl bl st c queue Hq);
      unfold P; cbn [context_parts appended]; eauto.
    rewrite Hp, Ha. eexists _, _. split; reflexivity.
  - assert (classes_to_process (initial_state target) = [target]) as Hq by done.
    destruct (loop_body_step so usage g wl bl (initial_state target) target [] Hq)
      as [Hs|? ? ? ?|? ? ? Hlt]; unfold P; cbn [context_parts appended initial_state].
    + destruct Hs as [Hs|[Hs|Hs]]; [|congruence|done].
      by apply not_elem_of_empty in Hs.
    + eexists _, _. split; reflexivity.
    + unfold cost_of in Hb. cbn in Hlt. lia.
Qed.

Lemma target_body_first_witness :
  exists bodies names,
    context_parts (final_state elements trace_usage g_abcd [] [] "p.A")
    = optimize_code_tokens (get_class_content g_abcd "p.A") :: bodies
    /\ appended (final_state elements trace_usage g_abcd [] [] "p.A") = "p.A" :: names.
Proof.
  refine (target_body_first elements trace_usage g_abcd [] [] "p.A" _ _ _ _).
  - vm_compute. reflexivity.
  - vm_compute. reflexivity.
  - vm_compute. discriminate.
  - vm_compute. discriminate.
Defined.

(** X5. Only the closure is emitted: every class whose body is appended is
    reachable from the target through the names that appended classes push
    (superclass, interfaces, referenced names). *)
Theorem appended_reachable_from_target so usage g wl bl target fuel c :
  c ∈ appended (run so usage g wl bl fuel (initial_state target)) ->
  rtc (fun a b => b ∈ related_classes so usage g a) target c.
Proof.
  revert c.
  set (R := rtc (fun a b => b ∈ related_classes so usage g a) target).
  assert ((forall x, x ∈ classes_to_process
                         (run so usage g wl bl fuel (initial_state target)) -> R x)
          /\ (forall c, c ∈ appended
                          (run so usage g wl bl fuel (initial_state target)) -> R c))
    as [_ H]; [|exact H].
  apply (run_invariant so usage g wl bl
           (fun st => (forall x, x ∈ classes_to_process st -> R x)
                      /\ (forall c, c ∈ appended st -> R c))).
  - intros st [Hq Ha] Hc. destruct (loop_cond_true g st Hc) as (c & queue & E & _).
    rewrite E in Hq.
    assert (R c) as Rc by (apply Hq, list_elem_of_here).
    assert (forall x, x ∈ queue -> R x) as Hrest
      by (intros x Hx; by apply Hq, list_elem_of_further).
    destruct (loop_body_step so usage g wl bl st c queue E);
      cbn [classes_to_process appended]; [done| |done].
    split.
    + intros x [Hx|Hx]%elem_of_app; [by apply Hrest|].
      unfold R. eapply rtc_r; [exact Rc|exact Hx].
    + intros x [Hx|Hx]%elem_of_app; [by apply Ha|].
      apply list_elem_of_singleton in Hx. by subst x.
  - split.
    + intros x Hx. apply list_elem_of_singleton in Hx. subst x. apply rtc_refl.
    + intros x Hx. by inversion Hx.
Qed.

Lemma appended_reachable_from_target_witness :
  rtc (fun a b => b ∈ related_classes elements trace_usage g_abcd a) "p.A" "p.A".
Proof.
  refine (appended_reachable_from_target
            elements trace_usage g_abcd [] [] "p.A" 1 "p.A" _).
  vm_compute. apply list_elem_of_here.
Defined.

(** ** The class index *)

Lemma index_files_fold root paths idx :
  index_files root paths idx
  = fold_left (fun m nf => <[nf.1 := row_of nf.1 nf.2]> m)
      (omap (fun f => option_map (fun n => (n, f)) (Path.dotted_name f root)) paths)
      idx.
Proof.
  unfold index_files. revert idx.
  induction paths as [|f paths IH]; intros idx; [done|].
  cbn [fold_left]. rewrite IH. cbn [omap list_omap].
  by destruct (Path.dotted_name f root).
Qed.

Lemma search_fold t idx :
  fold_left
    (fun idx root =>
       match rglob_java t root with
       | Some paths => index_files root paths idx
       | None => idx
       end)
    search_paths idx
  = fold_left (fun m nf => <[nf.1 := row_of nf.1 nf.2]> m) (discovered t) idx.
Proof.
  unfold discovered. generalize search_paths. intros roots.
  revert idx. induction roots as [|root roots IH]; intros idx; [done|].
  cbn [fold_left flat_map]. rewrite fold_left_app, IH. f_equal.
  unfold discovered_in. destruct (rglob_java t root); [|done].
  apply index_files_fold.
Qed.

Lemma build_fold g idx :
  conn g = Some idx ->
  conn (_build_class_index g)
  = Some (fold_left (fun m nf => <[nf.1 := row_of nf.1 nf.2]> m)
            (discovered (tree g)) idx).
Proof.
  intros H. unfold _build_class_index. rewrite H. cbn [conn].
  by rewrite search_fold.
Qed.

Lemma fold_insert_lookup pairs (m : gmap string ClassRow) n :
  fold_left (fun m nf => <[nf.1 := row_of nf.1 nf.2]> m) pairs m !! n
  = match last_found n pairs with
    | Some f => Some (row_of n f)
    | None => m !! n
    end.
Proof.
  revert m. induction pairs as [|[n' f'] pairs IH]; intros m; [done|].
  cbn [fold_left last_found fst snd]. rewrite IH.
  destruct (last_found n pairs); [done|].
  destruct (String.eqb_spec n' n) as [->|Hne].
  - by rewrite lookup_insert_eq.
  - by rewrite lookup_insert_ne.
Qed.

Lemma last_found_elem n pairs f : last_found n pairs = Some f -> (n, f) ∈ pairs.
Proof.
  induction pairs as [|[n' f'] pairs IH]; [done|]. cbn [last_found].
  destruct (last_found n pairs) as [f0|].
  - intros [= ->]. apply list_elem_of_further. by apply IH.
  - destruct (String.eqb_spec n' n) as [->|]; [|done].
    intros [= ->]. apply list_elem_of_here.
Qed.

Lemma elem_last_found n pairs f : (n, f) ∈ pairs -> is_Some (last_found n pairs).
Proof.
  induction pairs as [|[n' f'] pairs IH]; intros Hin; [by inversion Hin|].
  cbn [last_found]. apply elem_of_cons in Hin as [[= <- <-]|Hin].
  - destruct (last_found n pairs); [done|]. by rewrite String.eqb_refl.
  - destruct (IH Hin) as [f0 ->]. done.
Qed.

(** X6. Index round trip, last write wins: after [_build_class_index] the
    row of a class name is the one of the last file discovered under that
    name (search paths in order, files in scan order), with the package
    derived from the name; a name that was not discovered keeps the row it
    had; every discovered name is a key, and [find_class_file] returns that
    last file. *)
Theorem index_round_trip g idx class_name :
  conn g = Some idx ->
  index_lookup (_build_class_index g) class_name
  = match last_found class_name (discovered (tree g)) with
    | Some f => Some {| file_path := f; package := package_of class_name |}
    | None => idx !! class_name
    end
  /\ (forall f, (class_name, f) ∈ discovered (tree g) ->
                is_Some (index_lookup (_build_class_index g) class_name))
  /\ (forall f, last_found class_name (discovered (tree g)) = Some f ->
                find_class_file (_build_class_index g) class_name = Some f).
Proof.
  intros H.
  assert (index_lookup (_build_class_index g) class_name
          = match last_found class_name (discovered (tree g)) with
            | Some f => Some (row_of class_name f)
            | None => idx !! class_name
            end) as Hl.
  { unfold index_lookup. rewrite (build_fold g idx H). cbn [mbind option_bind].
    apply fold_insert_lookup. }
  split; [exact Hl|]. split.
  - intros f Hf. rewrite Hl. by destruct (elem_last_found _ _ _ Hf) as [f0 ->].
  - intros f Hf. unfold find_class_file. by rewrite Hl, Hf.
Qed.

Lemma index_round_trip_witness :
  find_class_file (_build_class_index (init corpus_abcd)) "p.A"
  = Some "decompiled_output/sources/p/A.java".
Proof.
  refine (proj2 (proj2 (index_round_trip (init corpus_abcd) ∅ "p.A" eq_refl))
                "decompiled_output/sources/p/A.java" _).
  vm_compute. reflexivity.
Defined.

Lemma discovered_elem t n f :
  (n, f) ∈ discovered t ->
  exists root,
    root ∈ search_paths
    /\ f ∈ map fst (files t)
    /\ Py.startswith (root ++ "/") f = true
    /\ endswith_java f = true
    /\ Path.dotted_name f root = Some n.
Proof.
  unfold discovered. intros Hin.
  apply list_elem_of_In, in_flat_map in Hin as (root & Hroot & Hin).
  exists root. split; [by apply list_elem_of_In|].
  unfold discovered_in in Hin. unfold rglob_java in *.
  destruct (existsb _ _); [|done].
  apply list_elem_of_In, list_elem_of_omap in Hin as (f' & Hf' & Hn).
  destruct (Path.dotted_name f' root) as [n'|] eqn:Hd; [|done].
  injection Hn as <- <-.
  apply list_elem_of_In, filter_In in Hf' as [Hf' Hb].
  apply andb_true_iff in Hb as [? ?].
  split; [by apply list_elem_of_In|]. done.
Qed.

(** X7. Every row of an index built from scratch stands for a file of the
    tree: its path is a file with the extension .java under one of the
    search paths, its key is the dotted name of that file relative to that
    path, and its package column is the key without its last segment. *)
Theorem index_rows_are_files t class_name row :
  index_lookup (_build_class_index (init t)) class_name = Some row ->
  package row = package_of class_name
  /\ exists root,
       root ∈ search_paths
       /\ file_path row ∈ map fst (files t)
       /\ Py.startswith (root ++ "/") (file_path row) = true
       /\ endswith_java (file_path row) = true
       /\ Path.dotted_name (file_path row) root = Some class_name.
Proof.
  intros H. unfold index_lookup in H.
  rewrite (build_fold (init t) ∅ eq_refl) in H.
  cbn [mbind option_bind tree init] in H. rewrite fold_insert_lookup in H.
  destruct (last_found class_name (discovered t)) as [f|] eqn:Hf; [|done].
  injection H as <-. split; [done|]. cbn [file_path].
  by apply discovered_elem, last_found_elem.
Qed.

Lemma index_rows_are_files_witness :
  package {| file_path := "decompiled_output/sources/p/A.java"; package := "p" |}
  = package_of "p.A"
  /\ exists root,
       root ∈ search_paths
       /\ file_path {| file_path := "decompiled_output/sources/p/A.java";
                       package := "p" |} ∈ map fst (files corpus_abcd)
       /\ Py.startswith (root ++ "/")
            (file_path {| file_path := "decompiled_output/sources/p/A.java";
                          package := "p" |}) = true
       /\ endswith_java
            (file_path {| file_path := "decompiled_output/sources/p/A.java";
                          package := "p" |}) = true
       /\ Path.dotted_name
            (file_path {| file_path := "decompiled_output/sources/p/A.java";
                          package := "p" |}) root = Some "p.A".
Proof.
  refine (index_rows_are_files corpus_abcd "p.A"
            {| file_path := "decompiled_output/sources/p/A.java"; package := "p" |} _).
  vm_compute. reflexivity.
Defined.

Lemma build_eq g idx :
  conn g = Some idx ->
  _build_class_index g
  = {| MAX_TOKENS := MAX_TOKENS g;
       conn := Some (fold_left (fun m nf => <[nf.1 := row_of nf.1 nf.2]> m)
                       (discovered (tree g)) idx);
       tree := tree g |}.
Proof.
  intros H. unfold _build_class_index. rewrite H. by rewrite search_fold.
Qed.

(** X8. Building the index twice from the same tree changes nothing. *)
Theorem build_class_index_idempotent g :
  _build_class_index (_build_class_index g) = _build_class_index g.
Proof.
  destruct (conn g) as [idx|] eqn:Hc.
  - rewrite (build_eq g idx Hc).
    match goal with
    | |- _build_class_index {| MAX_TOKENS := ?m; conn := Some ?i; tree := ?t |} = _ =>
        rewrite (build_eq {| MAX_TOKENS := m; conn := Some i; tree := t |} i eq_refl)
    end.
    cbn [MAX_TOKENS tree conn].
    assert (forall (m m' : gmap string ClassRow), m = m' ->
              {| MAX_TOKENS := MAX_TOKENS g; conn := Some m; tree := tree g |}
              = {| MAX_TOKENS := MAX_TOKENS g; conn := Some m'; tree := tree g |})
      as Hrec by (by intros m m' ->).
    apply Hrec. apply map_eq. intros n.
    rewrite fold_insert_lookup.
    destruct (last_found n (discovered (tree g))) as [f|] eqn:Hf; [|done].
    by rewrite fold_insert_lookup, Hf.
  - assert (_build_class_index g = g) as Hg
      by (unfold _build_class_index; by rewrite Hc).
    by rewrite !Hg.
Qed.

(** ** Names, prefixes and substrings *)

Lemma append_assoc (a b c : string) : (a ++ b) ++ c = a ++ b ++ c.
Proof. induction a as [|x a IH]; [done|]. by rewrite !append_cons, IH. Qed.

Lemma append_empty_r (a : string) : a ++ EmptyString = a.
Proof. induction a as [|x a IH]; [done|]. by rewrite append_cons, IH. Qed.

Lemma startswith_spec p s :
  Py.startswith p s = true <-> exists r, s = p ++ r.
Proof.
  revert s. induction p as [|a p IH]; intros s.
  - split; [intros _; by exists s|done].
  - destruct s as [|b s]; cbn [Py.startswith].
    + split; [done|]. intros [r Hr]. by rewrite append_cons in Hr.
    + rewrite andb_true_iff, IH. split.
      * intros [Hab [r ->]]. apply Ascii.eqb_eq in Hab as ->. by exists r.
      * intros [r Hr]. rewrite append_cons in Hr. injection Hr as -> ->.
        split; [apply Ascii.eqb_refl|by exists r].
Qed.

Lemma contains_spec a s :
  Py.contains a s = true <-> exists u v, s = u ++ a ++ v.
Proof.
  induction s as [|x s IH]; cbn [Py.contains].
  - rewrite orb_false_r, startswith_spec. split.
    + intros [r ->]. by exists EmptyString, r.
    + intros (u & v & H). destruct u as [|y u]; [|by rewrite append_cons in H].
      by exists v.
  - rewrite orb_true_iff, startswith_spec, IH. split.
    + intros [[r ->]|(u & v & ->)].
      * by exists EmptyString, r.
      * by exists (String x u), v.
    + intros (u & v & H). destruct u as [|y u].
      * left. by exists v.
      * right. rewrite append_cons in H. injection H as -> ->. by exists u, v.
Qed.

Lemma contains_trans a b c :
  Py.contains a b = true -> Py.contains b c = true -> Py.contains a c = true.
Proof.
  rewrite !contains_spec. intros (u & v & ->) (u' & v' & ->).
  exists (u' ++ u), (v ++ v'). by rewrite !append_assoc.
Qed.

Lemma contains_empty s : Py.contains EmptyString s = true.
Proof. by destruct s. Qed.

Lemma split_nonempty sep s : Py.split sep s <> [].
Proof.
  destruct s as [|x s]; [done|]. cbn [Py.split].
  destruct (Ascii.eqb x sep); [done|]. by destruct (Py.split sep s).
Qed.

Lemma join_cons_char sep x w ws :
  Py.join sep (String x w :: ws) = String x (Py.join sep (w :: ws)).
Proof. by destruct ws. Qed.

(** A text without the separator is one piece; otherwise it is the pieces
    before the last separator, joined, the separator and the last piece. *)
Lemma split_cases sep s :
  (occurrences (fun c => Ascii.eqb c sep) s = 0%nat /\ Py.split sep s = [s])
  \/ exists parts last,
       Py.split sep s = (parts ++ [last])%list
       /\ parts <> []
       /\ s = Py.join (String sep EmptyString) parts ++ String sep EmptyString ++ last
       /\ occurrences (fun c => Ascii.eqb c sep) last = 0%nat.
Proof.
  induction s as [|x s IH]; [by left|].
  cbn [Py.split occurrences]. destruct (Ascii.eqb x sep) eqn:Hx.
  - right. apply Ascii.eqb_eq in Hx as ->.
    destruct IH as [[H0 Hs]|(parts & last & Hs & Hne & Hj & H0)].
    + exists [EmptyString], s. rewrite Hs. done.
    + exists (EmptyString :: parts), last. rewrite Hs.
      split; [done|]. split; [done|]. split; [|done].
      destruct parts as [|w ws]; [done|].
      cbn [Py.join]. rewrite append_empty, append_assoc, append_cons, append_empty.
      by rewrite Hj at 1.
  - destruct IH as [[H0 Hs]|(parts & last & Hs & Hne & Hj & H0)].
    + left. rewrite Hs. split; [exact H0|done].
    + right. destruct parts as [|w ws]; [done|].
      rewrite Hs. exists (String x w :: ws), last.
      split; [done|]. split; [done|]. split; [|done].
      by rewrite join_cons_char, append_cons, <- Hj.
Qed.

Lemma but_last_snoc {A} (xs : list A) x : Py.but_last (xs ++ [x]) = xs.
Proof.
  induction xs as [|y xs IH]; [done|].
  cbn [app Py.but_last]. rewrite IH. by destruct xs.
Qed.

Lemma last_of_snoc xs x : Py.last_of (xs ++ [x]) = x.
Proof. unfold Py.last_of. apply List.last_last. Qed.

(** X9. The package and the simple name rebuild the class name: a name
    without a dot has the empty package and is its own simple name; a name
    with a dot is its package, a dot and its simple name; and the simple
    name holds no dot. *)
Theorem package_and_simple_name class_name :
  (occurrences is_dot class_name = 0%nat ->
   package_of class_name = EmptyString /\ simple_name class_name = class_name)
  /\ (occurrences is_dot class_name <> 0%nat ->
      class_name = package_of class_name ++ "." ++ simple_name class_name)
  /\ occurrences is_dot (simple_name class_name) = 0%nat.
Proof.
  unfold package_of, simple_name.
  destruct (split_cases "."%char class_name)
    as [[H0 Hs]|(parts & last & Hs & Hne & Hj & H0)]; rewrite Hs.
  - split; [done|]. split; [done|]. exact H0.
  - rewrite but_last_snoc, last_of_snoc.
    split; [|split; [done|exact H0]].
    intros Hz. exfalso. rewrite Hj in Hz. rewrite !occurrences_app in Hz.
    cbn in Hz. lia.
Qed.

Lemma simple_name_contained class_name :
  Py.contains (simple_name class_name) class_name = true.
Proof.
  apply contains_spec. unfold simple_name.
  destruct (split_cases "."%char class_name)
    as [[H0 Hs]|(parts & last & Hs & Hne & Hj & H0)]; rewrite Hs.
  - exists EmptyString, EmptyString. by rewrite append_empty_r.
  - rewrite last_of_snoc. exists (Py.join "." parts ++ "."), EmptyString.
    by rewrite append_empty_r, append_assoc.
Qed.

(** ** The usage tracer *)

(** X10. [trace_usage] reports exactly the names, relative to the output
    directory, of the indexed files that can be read and whose text holds
    the simple name of the class: the test on the fully-qualified name adds
    nothing, since a text that holds the full name holds the simple name.
    Without a connection it reports nothing. *)
Theorem trace_usage_spec g class_name x :
  (x ∈ trace_usage g class_name <->
   exists idx key row content,
     conn g = Some idx
     /\ idx !! key = Some row
     /\ read_text (tree g) (file_path row) = Some content
     /\ Py.contains (simple_name class_name) content = true
     /\ Path.dotted_name (file_path row) output_dir = Some x)
  /\ (conn g = None -> trace_usage g class_name = ∅).
Proof.
  split; [|intros H; unfold trace_usage; by rewrite H].
  unfold trace_usage. fold (simple_name class_name).
  destruct (conn g) as [idx|].
  - rewrite elem_of_list_to_set, list_elem_of_omap. split.
    + intros (row & Hrow & Hx).
      apply list_elem_of_fmap in Hrow as ([key row'] & -> & Hkr).
      apply elem_of_map_to_list in Hkr. cbn [snd] in Hx.
      destruct (read_text (tree g) (file_path row')) as [content|] eqn:Hr; [|done].
      destruct (Py.contains class_name content || _) eqn:Hc; [|done].
      exists idx, key, row', content. repeat split; try done.
      apply orb_true_iff in Hc as [Hc|Hc]; [|done].
      eapply contains_trans; [apply simple_name_contained|exact Hc].
    + intros (idx' & key & row & content & [= <-] & Hk & Hr & Hc & Hx).
      exists row. split.
      * apply list_elem_of_fmap. exists (key, row). split; [done|].
        by apply elem_of_map_to_list.
      * rewrite Hr, Hc, orb_true_r. exact Hx.
  - split; [intros H; by apply not_elem_of_empty in H|].
    by intros (idx & ? & ? & ? & ? & _).
Qed.

(** ** The scan of [find_class_file] *)

Lemma split_snoc_sep sep a :
  Py.split sep (a ++ String sep EmptyString)
  = (Py.split sep a ++ [EmptyString])%list.
Proof.
  induction a as [|x a IH].
  - rewrite append_empty. cbn [Py.split]. by rewrite Ascii.eqb_refl.
  - rewrite append_cons. cbn [Py.split]. rewrite IH.
    destruct (Ascii.eqb x sep); [done|].
    pose proof (split_nonempty sep a). by destruct (Py.split sep a).
Qed.

(** A file of a scan has a dotted name relative to the scanned path. *)
Lemma rglob_dotted_name t root paths f :
  rglob_java t root = Some paths -> f ∈ paths ->
  is_Some (Path.dotted_name f root).
Proof.
  unfold rglob_java. destruct (existsb _ _); [|done]. intros [= <-] Hf.
  apply list_elem_of_In, filter_In in Hf as [_ Hb].
  apply andb_true_iff in Hb as [Hs He].
  unfold Path.dotted_name, Path.relative_to. rewrite Hs.
  destruct (Py.drop (String.length root + 1) f) as [|y rel] eqn:Hd; [|done].
  exfalso. apply startswith_spec in Hs as [r ->].
  assert (forall (p q : string),
            Py.drop (String.length p + 1) ((p ++ "/") ++ q) = q) as Hdrop.
  { intros p q. induction p as [|z p IHp]; [done|]. by rewrite !append_cons. }
  rewrite Hdrop in Hd. subst r. rewrite append_empty_r in He.
  unfold endswith_java in He. rewrite split_snoc_sep, last_of_snoc in He.
  by vm_compute in He.
Qed.

Lemma scan_files_empty_name root paths :
  (forall f, f ∈ paths -> is_Some (Path.dotted_name f root)) ->
  scan_files EmptyString root paths = head paths.
Proof.
  intros H. destruct paths as [|f paths]; [done|]. cbn [scan_files head].
  destruct (H f (list_elem_of_here _ _)) as [n ->].
  cbn [Py.lower]. by rewrite contains_empty.
Qed.

(** X11. The empty class name: when it is not a key of the index,
    [find_class_file] returns the first file that the scan of the search
    paths yields, whatever its name (the empty string is a substring of
    every name), and nothing when the scan yields no file. *)
Theorem find_class_file_empty_name g :
  index_lookup g EmptyString = None ->
  find_class_file g EmptyString = head (scanned (tree g)).
Proof.
  intros H. unfold find_class_file, scanned. rewrite H.
  generalize search_paths. intros roots.
  induction roots as [|root roots IH]; [done|].
  cbn [scan_paths flat_map].
  destruct (rglob_java (tree g) root) as [paths|] eqn:Hg; cbn [default]; [|exact IH].
  rewrite scan_files_empty_name by (intros f; by apply (rglob_dotted_name (tree g))).
  destruct paths as [|f paths]; [exact IH|done].
Qed.

Lemma find_class_file_empty_name_witness :
  find_class_file g_abcd EmptyString = head (scanned (tree g_abcd)).
Proof.
  refine (find_class_file_empty_name g_abcd _). vm_compute. reflexivity.
Defined.


(** ** Patterns of the package filter *)

Lemma occurrences_cons_zero c x s :
  occurrences c (String x s) = 0%nat -> c x = false /\ occurrences c s = 0%nat.
Proof. cbn [occurrences]. destruct (c x); [simpl; lia|done]. Qed.

Lemma length_append (a b : string) :
  String.length (a ++ b) = (String.length a + String.length b)%nat.
Proof.
  induction a as [|x a IH]; [done|].
  rewrite append_cons. cbn [String.length]. by rewrite IH.
Qed.

Lemma special_false c :
  is_special c = false ->
  Ascii.eqb c "*" = false /\ Ascii.eqb c "?" = false /\ Ascii.eqb c "[" = false.
Proof.
  unfold is_special, Re.one_of. cbn [list_ascii_of_string existsb].
  rewrite !orb_false_iff. tauto.
Qed.

Lemma is_Some_option_map {A B} (f : A -> B) (o : option A) :
  is_Some (option_map f o) <-> is_Some o.
Proof. destruct o; split; intros [? ?]; by eauto. Qed.

(** A pattern without special characters is translated item by item. *)
Lemma translate_from_lit pat :
  occurrences is_special pat = 0%nat ->
  forall fuel b,
    (String.length pat <= fuel)%nat ->
    Fnmatch.translate_from fuel b pat = Re.lit pat.
Proof.
  induction pat as [|c rest IH]; intros Hl fuel b Hf.
  - by destruct fuel.
  - apply occurrences_cons_zero in Hl as [Hc Hl].
    apply special_false in Hc as (H1 & H2 & H3).
    destruct fuel as [|fuel]; [cbn in Hf; lia|].
    cbn [Fnmatch.translate_from Re.lit]. rewrite H1, H2, H3. f_equal.
    apply IH; [done|]. cbn in Hf. lia.
Qed.

Lemma translate_from_prefix pat :
  occurrences is_special pat = 0%nat ->
  forall fuel,
    (S (String.length pat) <= fuel)%nat ->
    Fnmatch.translate_from fuel false (pat ++ "*")
    = (Re.lit pat ++ [Re.Atom Re.any Re.Star])%list.
Proof.
  induction pat as [|c rest IH]; intros Hl fuel Hf.
  - rewrite append_empty. destruct fuel as [|fuel]; [lia|].
    cbn [Fnmatch.translate_from Re.lit app]. by destruct fuel.
  - apply occurrences_cons_zero in Hl as [Hc Hl].
    apply special_false in Hc as (H1 & H2 & H3).
    destruct fuel as [|fuel]; [lia|]. rewrite append_cons.
    cbn [Fnmatch.translate_from Re.lit app]. rewrite H1, H2, H3. f_equal.
    apply IH; [done|]. cbn in Hf. lia.
Qed.

(** Literal items match the text they spell, and nothing else. *)
Lemma match_branch_lit final p q s :
  is_Some (Re.match_branch final (Re.lit p ++ q)%list s)
  <-> exists r, s = p ++ r /\ is_Some (Re.match_branch final q r).
Proof.
  revert s. induction p as [|c p IH]; intros s; cbn [Re.lit app].
  - split; [intros H; by exists s|by intros (r & -> & H)].
  - destruct s as [|x s].
    + rewrite match_branch_chr_empty.
      split; [by intros [? ?]|intros (r & Hr & _); by rewrite append_cons in Hr].
    + rewrite match_branch_chr. destruct (Ascii.eqb_spec c x) as [->|Hne].
      * rewrite is_Some_option_map, IH. split.
        -- intros (r & -> & Hr). by exists r.
        -- intros (r & Hr & Hq). rewrite append_cons in Hr.
           injection Hr as ->. by exists r.
      * split; [by intros [? ?]|].
        intros (r & Hr & _). rewrite append_cons in Hr. congruence.
Qed.

Lemma greedy_any_at_end s : is_Some (Re.greedy Re.any Re.at_end s).
Proof.
  induction s as [|x s [r Hr]]; cbn [Re.greedy]; [by eexists|].
  change (Re.any x) with true. cbv iota. rewrite Hr. by eexists.
Qed.

Lemma fnmatch_literal name p :
  occurrences is_special p = 0%nat ->
  Fnmatch.fnmatch name p = true <-> name = p.
Proof.
  intros Hl. unfold Fnmatch.fnmatch, Fnmatch.translate.
  rewrite (translate_from_lit p Hl) by lia.
  pose proof (match_branch_lit Re.at_end p [] name) as H. rewrite app_nil_r in H.
  destruct (Re.match_branch Re.at_end (Re.lit p) name) as [r|].
  - split; [intros _|done].
    destruct (proj1 H) as (t & -> & Ht); [by eexists|].
    cbn [Re.match_branch] in Ht.
    destruct t; [by rewrite append_empty_r|by destruct Ht as [? ?]].
  - split; [done|]. intros ->. destruct (proj2 H) as [? ?]; [|done].
    exists EmptyString. rewrite append_empty_r. split; [done|]. by eexists.
Qed.

Lemma fnmatch_prefix name p :
  occurrences is_special p = 0%nat ->
  Fnmatch.fnmatch name (p ++ "*") = true <-> Py.startswith p name = true.
Proof.
  intros Hl. unfold Fnmatch.fnmatch, Fnmatch.translate.
  rewrite (translate_from_prefix p Hl) by (rewrite length_append; cbn; lia).
  pose proof (match_branch_lit Re.at_end p [Re.Atom Re.any Re.Star] name) as H.
  rewrite startswith_spec.
  destruct (Re.match_branch Re.at_end _ name) as [r|].
  - split; [intros _|done].
    destruct (proj1 H) as (t & -> & _); [by eexists|]. by exists t.
  - split; [done|]. intros [t ->]. destruct (proj2 H) as [? ?]; [|done].
    exists t. split; [done|]. cbn [Re.match_branch Re.qt Re.cls].
    apply greedy_any_at_end.
Qed.

(** X12. Patterns without special characters: as a whitelist, [p*] accepts
    exactly the names that start with [p]; as a blacklist it rejects exactly
    those; and the whitelist [p] alone accepts the name [p] and no other. *)
Theorem prefix_pattern_filter name p :
  occurrences is_special p = 0%nat ->
  matches_package_filter name [p ++ "*"] [] = Py.startswith p name
  /\ matches_package_filter name [] [p ++ "*"] = negb (Py.startswith p name)
  /\ (matches_package_filter name [p] [] = true <-> name = p).
Proof.
  intros Hl. unfold matches_package_filter. cbn [first_match length Nat.eqb].
  assert (Fnmatch.fnmatch name (p ++ "*") = Py.startswith p name) as ->
    by apply eq_true_iff_eq, (fnmatch_prefix name p Hl).
  rewrite <- (fnmatch_literal name p Hl).
  split; [by destruct (Py.startswith p name)|].
  split; [by destruct (Py.startswith p name)|].
  by destruct (Fnmatch.fnmatch name p).
Qed.

Lemma prefix_pattern_filter_witness :
  matches_package_filter "com.example.Foo" ["com.example." ++ "*"] []
  = Py.startswith "com.example." "com.example.Foo".
Proof.
  refine (proj1 (prefix_pattern_filter "com.example.Foo" "com.example." _)).
  vm_compute. reflexivity.
Defined.

Lemma existsb_same_elements {A} (f : A -> bool) (l l' : list A) :
  (forall x, x ∈ l <-> x ∈ l') -> existsb f l = existsb f l'.
Proof.
  intros H. apply eq_true_iff_eq. rewrite !existsb_exists.
  split; intros (x & Hin & Hf); exists x; (split; [|done]);
    apply list_elem_of_In, H, list_elem_of_In, Hin.
Qed.

(** X13. Only the sets of patterns count: two whitelists with the same
    patterns and two blacklists with the same patterns, in any order and
    with any repetitions, give the same verdict on every name. *)
Theorem filter_order_irrelevant name wl wl' bl bl' :
  (forall p, p ∈ wl <-> p ∈ wl') ->
  (forall p, p ∈ bl <-> p ∈ bl') ->
  matches_package_filter name wl bl = matches_package_filter name wl' bl'.
Proof.
  intros Hw Hb. unfold matches_package_filter. rewrite !first_match_existsb.
  rewrite (existsb_same_elements _ _ _ Hw), (existsb_same_elements _ _ _ Hb).
  destruct (existsb _ bl'); [done|]. destruct (existsb _ wl'); [done|].
  destruct wl as [|a wl], wl' as [|a' wl']; try done.
  - exfalso. eapply not_elem_of_nil, Hw, list_elem_of_here.
  - exfalso. eapply not_elem_of_nil, Hw, list_elem_of_here.
Qed.

Lemma filter_order_irrelevant_witness :
  matches_package_filter "a.X" ["a.*"; "b.*"] ["c.*"]
  = matches_package_filter "a.X" ["b.*"; "a.*"; "b.*"] ["c.*"; "c.*"].
Proof.
  refine (filter_order_irrelevant "a.X" ["a.*"; "b.*"] ["b.*"; "a.*"; "b.*"]
            ["c.*"] ["c.*"; "c.*"] _ _).
  - intros p. rewrite !elem_of_cons. pose proof (not_elem_of_nil p). tauto.
  - intros p. rewrite !elem_of_cons. pose proof (not_elem_of_nil p). tauto.
Defined.

(** ** The token estimate *)

Lemma calculate_tokens_counts t :
  calculate_tokens t
  = Float.int_mul_1_2
      (Z.of_nat (word_count t + bracket_count t + whitespace_run_count t)).
Proof.
  unfold calculate_tokens, Re.findall, re_brackets, re_spaces.
  rewrite (proj1 (findall_words_count t)), findall_one_occurrences,
    (proj1 (findall_plus_runs Py.is_space t)).
  unfold word_count, bracket_count, whitespace_run_count, maximal_runs.
  f_equal. lia.
Qed.

(** The first character of a text is a word character, a symbol or a space. *)
Lemma first_char_counted x s :
  (1 <= word_count (String x s) + whitespace_run_count (String x s))%nat.
Proof.
  unfold word_count, whitespace_run_count, maximal_runs.
  cbn [runs_from occurrences]. unfold is_symbol at 1.
  destruct (Py.is_word x), (Py.is_space x); cbn [negb orb]; lia.
Qed.

(** X14. Only the empty text is free: [calculate_tokens] is 0 on the empty
    text and at least 1 on every other text. *)
Theorem only_empty_text_is_free text :
  (calculate_tokens text = 0%Z <-> text = EmptyString)
  /\ (text <> EmptyString -> (1 <= calculate_tokens text)%Z).
Proof.
  destruct text as [|x s].
  - split; [|done]. split; [done|]. intros _. vm_compute. reflexivity.
  - assert (1 <= calculate_tokens (String x s))%Z as H.
    { rewrite calculate_tokens_counts.
      assert (Float.int_mul_1_2 1 = 1%Z) as <- by (vm_compute; reflexivity).
      apply int_mul_1_2_mono. pose proof (first_char_counted x s). lia. }
    split; [|done]. split; [lia|done].
Qed.

(** ** The shape of a normalised body *)

Lemma sub_from_skip_all re repl s :
  Re.sub_from re repl (String.length s) s
  = match Re.match_len re EmptyString with
    | Some _ => repl
    | None => EmptyString
    end.
Proof. induction s as [|x s IH]; [done|]. exact IH. Qed.

Lemma run_length_all s :
  occurrences not_space s = 0%nat -> run_length Py.is_space s = String.length s.
Proof.
  induction s as [|x s IH]; [done|]. intros H.
  apply occurrences_cons_zero in H as [Hx Hs]. unfold not_space in Hx.
  cbn [run_length String.length]. destruct (Py.is_space x); [|done].
  by rewrite IH.
Qed.

(** X15. A text of whitespace only (the empty text included) is normalised
    to the empty string, whose estimate is 0. *)
Theorem whitespace_only_normalises_to_empty code :
  occurrences not_space code = 0%nat ->
  optimize_code_tokens code = EmptyString
  /\ calculate_tokens (optimize_code_tokens code) = 0%Z.
Proof.
  intros H.
  assert (optimize_code_tokens code = EmptyString) as ->;
    [|split; [done|vm_compute; reflexivity]].
  destruct code as [|x s]; [vm_compute; reflexivity|].
  assert (Re.sub re_spaces " " (String x s) = " ") as Hs.
  { apply occurrences_cons_zero in H as [Hx Hs]. unfold not_space in Hx.
    unfold Re.sub. cbn [Re.sub_from]. unfold re_spaces.
    rewrite match_len_plus. destruct (Py.is_space x); [|done].
    rewrite (run_length_all s Hs), sub_from_skip_all, match_len_plus. done. }
  unfold optimize_code_tokens. cbv zeta. rewrite Hs. vm_compute. reflexivity.
Qed.

Lemma whitespace_only_normalises_to_empty_witness :
  optimize_code_tokens ("  " ++ nl ++ " ") = EmptyString.
Proof.
  refine (proj1 (whitespace_only_normalises_to_empty ("  " ++ nl ++ " ") _)).
  vm_compute. reflexivity.
Defined.

Lemma odd_space_is_space x : Py.is_space x = false -> is_odd_space x = false.
Proof. unfold is_odd_space. by intros ->. Qed.

Lemma sub_spaces_no_odd_space s skip :
  occurrences is_odd_space (Re.sub_from re_spaces " " skip s) = 0%nat.
Proof.
  revert skip. induction s as [|x s IH]; intros skip.
  - cbn [Re.sub_from]. unfold re_spaces. by rewrite match_len_plus.
  - destruct skip as [|k]; cbn [Re.sub_from]; [|apply IH].
    unfold re_spaces. rewrite match_len_plus. fold re_spaces.
    destruct (Py.is_space x) eqn:Hx.
    + rewrite occurrences_app, IH. reflexivity.
    + cbn [occurrences]. by rewrite (odd_space_is_space x Hx), IH.
Qed.

Lemma occurrences_lstrip c s :
  occurrences c s = 0%nat -> occurrences c (Py.lstrip s) = 0%nat.
Proof.
  induction s as [|x s IH]; [done|]. intros H. cbn [Py.lstrip].
  destruct (Py.is_space x); [|done].
  apply occurrences_cons_zero in H as [_ H]. by apply IH.
Qed.

Lemma occurrences_rstrip c s :
  occurrences c s = 0%nat -> occurrences c (Py.rstrip s) = 0%nat.
Proof.
  induction s as [|x s IH]; [done|]. intros H.
  apply occurrences_cons_zero in H as [Hx H]. specialize (IH H).
  cbn [Py.rstrip]. destruct (Py.rstrip s) as [|y r].
  - destruct (Py.is_space x); [done|]. cbn [occurrences]. by rewrite Hx.
  - cbn [occurrences] in *. by rewrite Hx.
Qed.

Lemma lstrip_head s c :
  Fnmatch.head (Py.lstrip s) = Some c -> Py.is_space c = false.
Proof.
  induction s as [|x s IH]; [done|]. cbn [Py.lstrip].
  destruct (Py.is_space x) eqn:Hx; [exact IH|]. by intros [= <-].
Qed.

Lemma rstrip_head s c :
  Fnmatch.head (Py.rstrip s) = Some c -> Fnmatch.head s = Some c.
Proof.
  destruct s as [|x s]; [done|]. cbn [Py.rstrip].
  destruct (Py.rstrip s); [|done]. by destruct (Py.is_space x).
Qed.

Lemma rstrip_last s c :
  Fnmatch.last_char (Py.rstrip s) = Some c -> Py.is_space c = false.
Proof.
  induction s as [|x s IH]; [done|]. cbn [Py.rstrip].
  destruct (Py.rstrip s) as [|y r].
  - destruct (Py.is_space x) eqn:Hx; [done|]. by intros [= <-].
  - exact IH.
Qed.

(** The text before [strip]: the two steps that need a newline do nothing. *)
Lemma optimize_code_tokens_steps code :
  optimize_code_tokens code
  = Py.strip
      (Re.sub re_block_comment EmptyString
         (Re.sub re_close_brace "}"
            (Re.sub re_open_brace "{" (Re.sub re_spaces " " code)))).
Proof.
  unfold optimize_code_tokens.
  set (c1 := Re.sub re_spaces " " code).
  set (c2 := Re.sub re_open_brace "{" c1).
  set (c3 := Re.sub re_close_brace "}" c2).
  assert (occurrences is_newline c3 = 0%nat) as H3.
  { unfold c3, c2, c1, Re.sub.
    do 2 (apply sub_from_occurrences; [reflexivity|]).
    apply sub_spaces_no_newline. }
  rewrite (sub_no_match re_line_comment nl match_line_comment_none c3 H3).
  rewrite (sub_no_match re_blank_lines nl match_blank_lines_none); [done|].
  unfold Re.sub. by apply sub_from_occurrences.
Qed.

Lemma normalised_body_newlines code :
  occurrences is_newline (optimize_code_tokens code) = 0%nat.
Proof.
  rewrite optimize_code_tokens_steps. unfold Py.strip.
  apply occurrences_rstrip, occurrences_lstrip. unfold Re.sub.
  do 3 (apply sub_from_occurrences; [reflexivity|]).
  apply sub_spaces_no_newline.
Qed.

(** X16. A normalised body is one line without outer whitespace: the only
    whitespace character it holds is the plain space (no newline, no tab),
    and it neither starts nor ends with whitespace. *)
Theorem normalised_body_shape code :
  occurrences is_odd_space (optimize_code_tokens code) = 0%nat
  /\ occurrences is_newline (optimize_code_tokens code) = 0%nat
  /\ (forall c, Fnmatch.head (optimize_code_tokens code) = Some c ->
                Py.is_space c = false)
  /\ (forall c, Fnmatch.last_char (optimize_code_tokens code) = Some c ->
                Py.is_space c = false).
Proof.
  split; [|split; [apply normalised_body_newlines|]];
    rewrite optimize_code_tokens_steps; unfold Py.strip.
  - apply occurrences_rstrip, occurrences_lstrip. unfold Re.sub.
    do 3 (apply sub_from_occurrences; [reflexivity|]).
    apply sub_spaces_no_odd_space.
  - split.
    + intros c Hc. by apply rstrip_head, lstrip_head in Hc.
    + intros c. apply rstrip_last.
Qed.

Lemma join_newlines parts :
  Forall (fun b => occurrences is_newline b = 0%nat) parts ->
  occurrences is_newline (Py.join (nl ++ nl) parts)
  = (2 * (length parts - 1))%nat.
Proof.
  induction 1 as [|b parts Hb Hparts IH]; [done|].
  destruct parts as [|b' parts]; [cbn [Py.join length]; rewrite Hb; lia|].
  change (Py.join (nl ++ nl) (b :: b' :: parts))
    with (b ++ (nl ++ nl) ++ Py.join (nl ++ nl) (b' :: parts)).
  assert (occurrences is_newline nl = 1%nat) as Hnl by (vm_compute; reflexivity).
  rewrite !occurrences_app, Hb, IH, Hnl. cbn [length]. lia.
Qed.

(** X17. In the generated context every class body is one line and two
    bodies are separated by one empty line: the context holds two newline
    characters per body after the first, and one body per appended class. *)
Theorem context_lines so usage g wl bl target :
  occurrences is_newline (generate_context_with so usage g wl bl target)
  = (2 * (length (appended (final_state so usage g wl bl target)) - 1))%nat
  /\ length (context_parts (final_state so usage g wl bl target))
     = length (appended (final_state so usage g wl bl target)).
Proof.
  set (P := fun st =>
              Forall (fun b => occurrences is_newline b = 0%nat) (context_parts st)
              /\ length (context_parts st) = length (appended st)).
  assert (P (final_state so usage g wl bl target)) as [Hall Hlen].
  { unfold final_state. apply (run_invariant so usage g wl bl P).
    - intros st [Ha Hl] Hc.
      destruct (loop_cond_true g st Hc) as (c & queue & Hq & _).
      destruct (loop_body_step so usage g wl bl st c queue Hq);
        unfold P; cbn [context_parts appended]; [done| |done].
      split.
      + apply Forall_app. split; [done|]. apply Forall_singleton.
        apply (normalised_body_newlines (get_class_content g c)).
      + rewrite !length_app, Hl. done.
    - split; [apply Forall_nil_2|done]. }
  split; [|exact Hlen].
  unfold generate_context_with. rewrite <- Hlen. by apply join_newlines.
Qed.


(** ** From a class name to its file and back *)

Lemma join_split sep s : Py.join (String sep EmptyString) (Py.split sep s) = s.
Proof.
  induction s as [|x s IH]; [done|]. cbn [Py.split].
  pose proof (split_nonempty sep s) as Hne.
  destruct (Ascii.eqb_spec x sep) as [->|Hx].
  - destruct (Py.split sep s) as [|w ws]; [done|].
    change (Py.join (String sep EmptyString) (EmptyString :: w :: ws))
      with (EmptyString ++ String sep EmptyString
              ++ Py.join (String sep EmptyString) (w :: ws)).
    by rewrite IH.
  - destruct (Py.split sep s) as [|w ws]; [done|].
    by rewrite join_cons_char, IH.
Qed.

Lemma split_no_sep sep s :
  occurrences (fun c => Ascii.eqb c sep) s = 0%nat -> Py.split sep s = [s].
Proof.
  induction s as [|x s IH]; [done|]. intros H.
  apply occurrences_cons_zero in H as [Hx Hs].
  cbn [Py.split]. by rewrite Hx, (IH Hs).
Qed.

Lemma but_last_last xs :
  xs <> [] -> (Py.but_last xs ++ [Py.last_of xs])%list = xs.
Proof.
  induction xs as [|x xs IH]; [done|]. intros _.
  destruct xs as [|y ys]; [done|].
  change (Py.but_last (x :: y :: ys)) with (x :: Py.but_last (y :: ys)).
  change (Py.last_of (x :: y :: ys)) with (Py.last_of (y :: ys)).
  cbn [app]. by rewrite IH.
Qed.

(** Text without the separator, added at the end, extends the last piece. *)
Lemma split_app_no_sep sep a b :
  occurrences (fun c => Ascii.eqb c sep) b = 0%nat ->
  Py.split sep (a ++ b)
  = (Py.but_last (Py.split sep a)
       ++ [(Py.last_of (Py.split sep a) ++ b)%string])%list.
Proof.
  intros Hb. induction a as [|x a IH].
  - rewrite append_empty. by apply split_no_sep.
  - rewrite append_cons. cbn [Py.split]. rewrite IH.
    pose proof (split_nonempty sep a) as Hne.
    destruct (Py.split sep a) as [|w ws]; [done|].
    destruct (Ascii.eqb x sep).
    + done.
    + destruct ws as [|y ys]; [done|]. done.
Qed.

Lemma split_replace_char a b s :
  occurrences (fun c => Ascii.eqb c b) s = 0%nat ->
  Py.split b (Py.replace_char a b s) = map (Py.replace_char a b) (Py.split a s).
Proof.
  induction s as [|x s IH]; [done|]. intros H.
  apply occurrences_cons_zero in H as [Hx Hs]. specialize (IH Hs).
  cbn [Py.replace_char Py.split].
  destruct (Ascii.eqb x a) eqn:Hxa.
  - rewrite Ascii.eqb_refl, IH. done.
  - rewrite Hx, IH.
    pose proof (split_nonempty a s) as Hne.
    destruct (Py.split a s) as [|w ws]; [done|].
    cbn [map Py.replace_char]. by rewrite Hxa.
Qed.

Lemma replace_char_back a b s :
  occurrences (fun c => Ascii.eqb c b) s = 0%nat ->
  Py.replace_char b a (Py.replace_char a b s) = s.
Proof.
  induction s as [|x s IH]; [done|]. intros H.
  apply occurrences_cons_zero in H as [Hx Hs].
  cbn [Py.replace_char]. rewrite (IH Hs).
  destruct (Ascii.eqb_spec x a) as [->|Hxa].
  - by rewrite Ascii.eqb_refl.
  - by rewrite Hx.
Qed.

Lemma replace_char_no_source a b s :
  a <> b -> occurrences (fun c => Ascii.eqb c a) (Py.replace_char a b s) = 0%nat.
Proof.
  intros Hab. induction s as [|x s IH]; [done|].
  cbn [Py.replace_char occurrences]. rewrite IH.
  destruct (Ascii.eqb_spec x a) as [->|Hxa].
  - destruct (Ascii.eqb_spec b a); [congruence|done].
  - destruct (Ascii.eqb_spec x a); [congruence|done].
Qed.

Lemma last_of_map f xs :
  f EmptyString = EmptyString -> Py.last_of (map f xs) = f (Py.last_of xs).
Proof.
  intros Hf. unfold Py.last_of. induction xs as [|x xs IH]; [done|].
  destruct xs as [|y ys]; [done|]. exact IH.
Qed.

Lemma rfind_dot_app a b i :
  Path.rfind_dot b = Some i ->
  Path.rfind_dot (a ++ b) = Some (String.length a + i)%nat.
Proof.
  intros Hb. induction a as [|x a IH]; [done|].
  rewrite append_cons. cbn [Path.rfind_dot String.length]. by rewrite IH.
Qed.

Lemma take_append a b : Py.take (String.length a) (a ++ b) = a.
Proof.
  induction a as [|x a IH]; [by destruct b|].
  rewrite append_cons. cbn [String.length Py.take]. by rewrite IH.
Qed.

Lemma drop_suffix_java name :
  name <> EmptyString ->
  occurrences is_dot name = 0%nat ->
  Path.drop_suffix (name ++ ".java") = name.
Proof.
  intros Hne Hdot. unfold Path.drop_suffix.
  rewrite (rfind_dot_app name ".java" 0) by reflexivity.
  rewrite length_append, Nat.add_0_r.
  assert ((0 <? String.length name)%nat = true) as ->
    by (apply Nat.ltb_lt; destruct name; [done|cbn; lia]).
  assert ((String.length name <? String.length name + String.length ".java" - 1)%nat
          = true) as -> by (apply Nat.ltb_lt; cbn; lia).
  cbn [andb]. apply take_append.
Qed.

Lemma replace_char_empty a b s :
  Py.replace_char a b s = EmptyString -> s = EmptyString.
Proof. by destruct s. Qed.

(** The dotted name of the conventional place of a class is the class name. *)
Lemma dotted_name_class_path root class_name :
  occurrences is_slash class_name = 0%nat ->
  simple_name class_name <> EmptyString ->
  Path.dotted_name (class_path root class_name) root = Some class_name.
Proof.
  intros Hslash Hsimple. unfold Path.dotted_name, Path.relative_to, class_path.
  set (R := Py.replace_char "." "/" class_name).
  assert (Py.startswith (root ++ "/") (root ++ "/" ++ R ++ ".java") = true) as ->.
  { apply startswith_spec. exists (R ++ ".java"). by rewrite append_assoc. }
  assert (Py.drop (String.length root + 1) (root ++ "/" ++ R ++ ".java")
          = R ++ ".java") as ->.
  { clear. induction root as [|z root IH]; [done|].
    rewrite append_cons. exact IH. }
  destruct (R ++ ".java") as [|y rel] eqn:Hrel; [by destruct R|].
  rewrite <- Hrel. clear y rel Hrel. f_equal.
  unfold Path.with_suffix_empty, Path.sep.
  rewrite (split_app_no_sep "/" R ".java") by reflexivity.
  rewrite but_last_snoc, last_of_snoc.
  assert (Py.split "/" R = map (Py.replace_char "." "/") (Py.split "." class_name))
    as Hsplit by (apply split_replace_char; exact Hslash).
  assert (Py.last_of (Py.split "/" R)
          = Py.replace_char "." "/" (simple_name class_name)) as Hlast
    by (rewrite Hsplit; by apply last_of_map).
  rewrite drop_suffix_java.
  - rewrite but_last_last by apply split_nonempty.
    rewrite (join_split "/" R). unfold R. by apply replace_char_back.
  - rewrite Hlast. intros H. by apply replace_char_empty in H.
  - rewrite Hlast. by apply replace_char_no_source.
Qed.

Lemma greedy_of_rest c (k : string -> option (list nat)) s :
  is_Some (k s) -> is_Some (Re.greedy c k s).
Proof.
  intros [r Hr]. destruct s as [|x s]; cbn [Re.greedy].
  - rewrite Hr. by eexists.
  - destruct (c x); [|rewrite Hr; by eexists].
    destruct (Re.greedy c k s); [by eexists|]. rewrite Hr. by eexists.
Qed.

Lemma greedy_any_app (k : string -> option (list nat)) a b :
  is_Some (k b) -> is_Some (Re.greedy Re.any k (a ++ b)).
Proof.
  intros Hk. induction a as [|x a [r Hr]].
  - rewrite append_empty. by apply greedy_of_rest.
  - rewrite append_cons. cbn [Re.greedy]. change (Re.any x) with true.
    cbv iota. rewrite Hr. by eexists.
Qed.

Lemma endswith_java_spec p : endswith_java (p ++ ".java") = true.
Proof.
  unfold endswith_java, Path.sep.
  rewrite (split_app_no_sep "/" p ".java") by reflexivity.
  rewrite last_of_snoc. unfold Fnmatch.fnmatch.
  change (Fnmatch.translate "*.java")
    with (Re.Atom Re.any Re.Star :: Re.lit ".java").
  cbn [Re.match_branch Re.qt Re.cls].
  destruct (greedy_any_app (Re.match_branch Re.at_end (Re.lit ".java"))
              (Py.last_of (Py.split "/" p)) ".java") as [r Hr];
    [by eexists|].
  cbn [Re.lit] in Hr. cbn [Re.lit]. by rewrite Hr.
Qed.

Lemma index_lookup_build t class_name :
  index_lookup (_build_class_index (init t)) class_name
  = option_map (row_of class_name) (last_found class_name (discovered t)).
Proof.
  unfold index_lookup. rewrite (build_fold (init t) ∅ eq_refl).
  cbn [mbind option_bind tree init]. rewrite fold_insert_lookup.
  by destruct (last_found class_name (discovered t)).
Qed.

(** X18. A class stored at its conventional place is found under its name:
    if the tree holds [root/p/q/Name.java] for a search path [root] that
    exists, then after the index is built [p.q.Name] is a key of the index
    and [find_class_file] returns a file of the tree whose dotted name,
    relative to some search path, is [p.q.Name]. *)
Theorem class_file_is_indexed t root class_name :
  root ∈ search_paths ->
  root ∈ dirs t ->
  class_path root class_name ∈ map fst (files t) ->
  occurrences is_slash class_name = 0%nat ->
  EmptyString ∉ Py.split "."%char class_name ->
  Path.dotted_name (class_path root class_name) root = Some class_name
  /\ is_Some (index_lookup (_build_class_index (init t)) class_name)
  /\ exists f root',
       find_class_file (_build_class_index (init t)) class_name = Some f
       /\ f ∈ map fst (files t)
       /\ root' ∈ search_paths
       /\ Path.dotted_name f root' = Some class_name.
Proof.
  intros Hroot Hdir Hfile Hslash Hseg.
  assert (simple_name class_name <> EmptyString) as Hsimple.
  { intros H. apply Hseg. rewrite <- H. unfold simple_name, Py.last_of.
    pose proof (split_nonempty "." class_name) as Hne.
    apply list_elem_of_In.
    destruct (exists_last Hne) as (init & l & ->). rewrite List.last_last.
    apply in_or_app. right. by left. }
  pose proof (dotted_name_class_path root class_name Hslash Hsimple) as Hname.
  assert ((class_name, class_path root class_name) ∈ discovered t) as Hdisc.
  { unfold discovered. apply list_elem_of_In, in_flat_map.
    exists root. split; [by apply list_elem_of_In|].
    unfold discovered_in, rglob_java.
    assert (existsb (String.eqb root) (dirs t) = true) as ->.
    { apply existsb_exists. exists root.
      split; [by apply list_elem_of_In|apply String.eqb_refl]. }
    apply list_elem_of_In, list_elem_of_omap.
    exists (class_path root class_name). split; [|by rewrite Hname].
    apply list_elem_of_In, filter_In. split; [by apply list_elem_of_In|].
    apply andb_true_iff. split.
    - apply startswith_spec. unfold class_path. eexists.
      by rewrite append_assoc.
    - unfold class_path. rewrite <- !append_assoc. apply endswith_java_spec. }
  destruct (elem_last_found _ _ _ Hdisc) as [f Hf].
  pose proof (index_lookup_build t class_name) as Hl. rewrite Hf in Hl.
  split; [exact Hname|]. split; [rewrite Hl; by eexists|].
  destruct (discovered_elem t class_name f (last_found_elem _ _ _ Hf))
    as (root' & Hr' & Hin & _ & _ & Hd).
  exists f, root'. split; [|done].
  unfold find_class_file. by rewrite Hl.
Qed.

Lemma class_file_is_indexed_witness :
  is_Some (index_lookup (_build_class_index (init corpus_abcd)) "p.A").
Proof.
  refine (proj1 (proj2 (class_file_is_indexed corpus_abcd
                          "decompiled_output/sources" "p.A" _ _ _ _ _))).
  - apply list_elem_of_In. vm_compute. tauto.
  - apply list_elem_of_In. vm_compute. tauto.
  - apply list_elem_of_In. vm_compute. tauto.
  - vm_compute. reflexivity.
  - intros H. apply list_elem_of_In in H. vm_compute in H.
    destruct H as [H|[H|[]]]; discriminate H.
Defined.


(** ** What the extractors of [get_class_hierarchy] return *)

Lemma drop_0 s : Py.drop 0 s = s.
Proof. by destruct s. Qed.

Lemma drop_empty n : Py.drop n EmptyString = EmptyString.
Proof. by destruct n. Qed.

Lemma take_empty n : Py.take n EmptyString = EmptyString.
Proof. by destruct n. Qed.

Lemma drop_drop n m s : Py.drop m (Py.drop n s) = Py.drop (n + m) s.
Proof.
  revert s. induction n as [|n IH]; intros s.
  - by rewrite drop_0.
  - destruct s as [|x s]; [by rewrite !drop_empty|]. apply IH.
Qed.

Lemma take_drop n s : Py.take n s ++ Py.drop n s = s.
Proof.
  revert s. induction n as [|n IH]; intros s; [by rewrite drop_0|].
  destruct s as [|x s]; [done|]. cbn [Py.take Py.drop].
  by rewrite append_cons, IH.
Qed.

Lemma take_add n m s :
  Py.take (n + m) s = Py.take n s ++ Py.take m (Py.drop n s).
Proof.
  revert s. induction n as [|n IH]; intros s; [by rewrite drop_0|].
  destruct s as [|x s]; [by rewrite drop_empty, !take_empty|].
  cbn [Nat.add Py.take Py.drop]. by rewrite append_cons, IH.
Qed.

Lemma take_nonempty n s :
  (1 <= n <= String.length s)%nat -> Py.take n s <> EmptyString.
Proof.
  destruct n as [|n]; [lia|]. destruct s as [|x s]; [cbn; lia|done].
Qed.

Lemma greedy_sound c (k : string -> option (list nat)) s r :
  Re.greedy c k s = Some r ->
  exists n r',
    r = n :: r'
    /\ (n <= String.length s)%nat
    /\ occurrences (outside c) (Py.take n s) = 0%nat
    /\ k (Py.drop n s) = Some r'.
Proof.
  assert (forall t, Re.skip0 (k t) = Some r ->
                    exists n r', r = n :: r' /\ (n <= String.length t)%nat
                                 /\ occurrences (outside c) (Py.take n t) = 0%nat
                                 /\ k (Py.drop n t) = Some r') as Hskip.
  { intros t Ht. destruct (k t) as [r'|] eqn:Hk; [|done].
    injection Ht as <-. exists 0%nat, r'.
    rewrite drop_0. split; [done|]. split; [lia|]. split; [by destruct t|done]. }
  revert r Hskip. induction s as [|x s IH]; intros r Hskip; cbn [Re.greedy].
  - apply Hskip.
  - destruct (c x) eqn:Hx; [|apply Hskip].
    destruct (Re.greedy c k s) as [r0|] eqn:Hg; [|apply Hskip].
    intros [= <-]. clear Hskip.
    destruct (IH r0) as (n & r' & -> & Hn & Hocc & Hk); [|done|].
    { intros t Ht. destruct (k t) as [r'|] eqn:Hk; [|done].
      injection Ht as <-. exists 0%nat, r'.
      rewrite drop_0. split; [done|]. split; [lia|]. split; [by destruct t|done]. }
    exists (S n), r'. cbn [Re.bump String.length Py.take Py.drop occurrences].
    unfold outside at 1. rewrite Hx.
    split; [done|]. split; [lia|]. split; [done|done].
Qed.

Lemma lazy_sound c (k : string -> option (list nat)) s r :
  Re.lazy c k s = Some r ->
  exists n r',
    r = n :: r'
    /\ (n <= String.length s)%nat
    /\ occurrences (outside c) (Py.take n s) = 0%nat
    /\ k (Py.drop n s) = Some r'.
Proof.
  revert r. induction s as [|x s IH]; intros r; cbn [Re.lazy].
  - destruct (k EmptyString) as [r'|] eqn:Hk; [|done].
    intros [= <-]. exists 0%nat, r'. done.
  - destruct (k (String x s)) as [r'|] eqn:Hk.
    + intros [= <-]. exists 0%nat, r'.
      split; [done|]. split; [cbn; lia|]. split; [done|done].
    + cbn [Re.skip0]. destruct (c x) eqn:Hx; [|done].
      destruct (Re.lazy c k s) as [r0|] eqn:Hl; [|done].
      intros [= <-]. destruct (IH r0 eq_refl) as (n & r' & -> & Hn & Hocc & Hk').
      exists (S n), r'. cbn [Re.bump String.length Py.take Py.drop occurrences].
      unfold outside at 1. rewrite Hx.
      split; [done|]. split; [lia|]. split; [done|done].
Qed.

(** The engine is sound: a match is made of pieces of the classes of the
    items. *)
Lemma match_branch_sound p s r :
  Re.match_branch Re.anywhere p s = Some r -> segments_ok p r s.
Proof.
  revert s r. induction p as [|[c q] p IH]; intros s r.
  - by intros [= <-].
  - destruct q; cbn [Re.match_branch Re.qt Re.cls].
    + destruct s as [|x s]; [done|]. destruct (c x) eqn:Hx; [|done].
      destruct (Re.match_branch Re.anywhere p s) as [r'|] eqn:Hm; [|done].
      intros [= <-]. cbn [segments_ok Re.qt Re.cls String.length Py.take occurrences].
      unfold outside at 1. rewrite Hx. cbn [Py.drop].
      split; [lia|]. split; [done|]. split; [done|by apply IH].
    + intros H. apply greedy_sound in H as (n & r' & -> & Hn & Hocc & Hk).
      cbn [segments_ok Re.qt Re.cls].
      split; [done|]. split; [done|]. split; [done|by apply IH].
    + destruct s as [|x s]; [done|]. destruct (c x) eqn:Hx; [|done].
      destruct (Re.greedy c (Re.match_branch Re.anywhere p) s) as [r0|] eqn:Hg;
        [|done].
      intros [= <-]. apply greedy_sound in Hg as (n & r' & -> & Hn & Hocc & Hk).
      cbn [Re.bump segments_ok Re.qt Re.cls String.length Py.take Py.drop occurrences].
      unfold outside at 1. rewrite Hx.
      split; [lia|]. split; [done|]. split; [lia|by apply IH].
    + intros H. apply lazy_sound in H as (n & r' & -> & Hn & Hocc & Hk).
      cbn [segments_ok Re.qt Re.cls].
      split; [done|]. split; [done|]. split; [done|by apply IH].
Qed.

Lemma segments_lit p q r s :
  segments_ok (Re.lit p ++ q)%list r s ->
  exists r' rest,
    r = (repeat 1%nat (String.length p) ++ r')%list
    /\ s = p ++ rest
    /\ segments_ok q r' rest.
Proof.
  revert r s. induction p as [|c p IH]; intros r s; cbn [Re.lit app].
  - intros H. by exists r, s.
  - destruct r as [|n r]; [done|].
    cbn [segments_ok Re.chr Re.qt Re.cls]. intros (Hn & Hocc & -> & H).
    destruct s as [|x s]; [cbn in Hn; lia|].
    cbn [Py.take Py.drop occurrences] in Hocc, H.
    unfold outside in Hocc at 1.
    destruct (Ascii.eqb_spec c x) as [<-|]; [|cbn in Hocc; lia].
    destruct (IH r s H) as (r' & rest & -> & -> & Hq).
    by exists r', rest.
Qed.

Lemma search_sound re s i r :
  Re.search re s = Some (i, r) ->
  (i <= String.length s)%nat /\ Re.match_here re (Py.drop i s) = Some r.
Proof.
  revert i r. induction s as [|x s IH]; intros i r; cbn [Re.search].
  - destruct (Re.match_here re EmptyString) as [r0|] eqn:Hm; [|done].
    by intros [= <- <-].
  - destruct (Re.match_here re (String x s)) as [r0|] eqn:Hm.
    + intros [= <- <-]. split; [lia|done].
    + destruct (Re.search re s) as [[i' r']|]; [|done].
      intros [= <- <-]. destruct (IH i' r' eq_refl) as [Hi Hr].
      split; [cbn; lia|done].
Qed.

Lemma match_here_one b s r :
  Re.match_here [b] s = Some r -> Re.match_branch Re.anywhere b s = Some r.
Proof. cbn [Re.match_here]. by destruct (Re.match_branch Re.anywhere b s). Qed.

(** Every item of [findall] is a match at some place of the text. *)
Lemma findall_from_items re s skip x :
  x ∈ Re.findall_from re skip s ->
  exists pre t n,
    s = pre ++ t /\ Re.match_len re t = Some n /\ x = Py.take n t.
Proof.
  revert skip. induction s as [|c s IH]; intros skip Hx.
  - cbn [Re.findall_from] in Hx.
    destruct (Re.match_len re EmptyString) as [n|] eqn:Hm; [|by inversion Hx].
    apply list_elem_of_singleton in Hx as ->.
    exists EmptyString, EmptyString, n. by rewrite take_empty.
  - assert (forall k, x ∈ Re.findall_from re k s ->
                      exists pre t n, String c s = pre ++ t
                                      /\ Re.match_len re t = Some n
                                      /\ x = Py.take n t) as Hrest.
    { intros k Hk. destruct (IH _ Hk) as (pre & t & n & -> & Hm & ->).
      by exists (String c pre), t, n. }
    destruct skip as [|k]; cbn [Re.findall_from] in Hx; [|by eapply Hrest].
    destruct (Re.match_len re (String c s)) as [[|l]|] eqn:Hm;
      [| |by eapply Hrest].
    + apply elem_of_cons in Hx as [->|Hx]; [|by eapply Hrest].
      by exists EmptyString, (String c s), 0%nat.
    + apply elem_of_cons in Hx as [->|Hx]; [|by eapply Hrest].
      by exists EmptyString, (String c s), (S l).
Qed.

Lemma drop_append a b : Py.drop (String.length a) (a ++ b) = b.
Proof.
  induction a as [|x a IH]; [by rewrite drop_0|].
  rewrite append_cons. exact IH.
Qed.

Lemma total_ones L l : Re.total (repeat 1%nat L ++ l) = (L + Re.total l)%nat.
Proof.
  induction L as [|L IH]; [done|].
  cbn [repeat app]. unfold Re.total in *. cbn [fold_right]. rewrite IH. lia.
Qed.

Lemma items_after_ones L (n1 n2 : nat) :
  firstn (S L) (repeat 1%nat L ++ [n1; n2]) = (repeat 1%nat L ++ [n1])%list
  /\ skipn (S L) (repeat 1%nat L ++ [n1; n2]) = [n2].
Proof.
  induction L as [|L [IH1 IH2]]; [done|].
  cbn [repeat app]. split.
  - change (firstn (S (S L)) (1%nat :: (repeat 1%nat L ++ [n1; n2])%list))
      with (1%nat :: firstn (S L) (repeat 1%nat L ++ [n1; n2])).
    by rewrite IH1.
  - exact IH2.
Qed.

(** [re.search] of a keyword, whitespace and a run of a class: the text
    holds the keyword, one or more whitespace characters, and the group. *)
Lemma search_keyword kw cls content i r :
  Re.search [(Re.lit kw ++ [Re.Atom Py.is_space Re.Plus; Re.Atom cls Re.Plus])%list]
            content = Some (i, r) ->
  exists pre w x post,
    content = pre ++ kw ++ w ++ x ++ post
    /\ Re.group content (i, r) (S (String.length kw)) 1 = x
    /\ w <> EmptyString /\ occurrences (outside Py.is_space) w = 0%nat
    /\ x <> EmptyString /\ occurrences (outside cls) x = 0%nat.
Proof.
  intros H. apply search_sound in H as [Hi Hm].
  apply match_here_one, match_branch_sound, segments_lit in Hm
    as (r' & rest & -> & Hrest & Hseg).
  destruct r' as [|n1 [|n2 [|n3 r']]]; try done.
  - cbn [segments_ok] in Hseg. tauto.
  - cbn [segments_ok Re.qt Re.cls] in Hseg.
    destruct Hseg as (Hn1 & Ho1 & H1 & Hn2 & Ho2 & H2 & _).
    exists (Py.take i content), (Py.take n1 rest),
      (Py.take n2 (Py.drop n1 rest)), (Py.drop n2 (Py.drop n1 rest)).
    split; [by rewrite !take_drop, <- Hrest, take_drop|].
    split.
    { unfold Re.group. cbn [fst snd].
      destruct (items_after_ones (String.length kw) n1 n2) as [-> ->].
      rewrite total_ones. unfold Re.total. cbn [firstn fold_right].
      rewrite !Nat.add_0_r, <- !drop_drop, Hrest, drop_append. done. }
    split; [apply take_nonempty; lia|]. split; [done|].
    split; [apply take_nonempty; lia|done].
  - cbn [segments_ok] in Hseg. tauto.
Qed.

Lemma hierarchy_of_content usage g c :
  superclasses (get_class_hierarchy_with usage g c)
  = extract_superclass (get_class_content g c)
  /\ interfaces (get_class_hierarchy_with usage g c)
     = extract_interfaces (get_class_content g c)
  /\ referenced_classes (get_class_hierarchy_with usage g c)
     = list_to_set (extract_references (get_class_content g c))
  /\ inner_classes (get_class_hierarchy_with usage g c) = [].
Proof.
  assert (extract_superclass EmptyString = []) as E1 by reflexivity.
  assert (extract_interfaces EmptyString = []) as E2 by reflexivity.
  assert (extract_references EmptyString = []) as E3 by reflexivity.
  unfold get_class_hierarchy_with, get_class_content.
  destruct (find_class_file g c) as [f|]; [|by rewrite E1, E2, E3].
  destruct (Py.is_empty f); [by rewrite E1, E2, E3|].
  destruct (read_text (tree g) f); [done|by rewrite E1, E2, E3].
Qed.

(** X19. The hierarchy is read off the text that [get_class_content]
    returns: the superclass, the interfaces and the referenced names are
    the extracts of that text; a class without content has none of them;
    there is at most one superclass, and the inner classes are never
    filled in. *)
Theorem hierarchy_follows_content g c :
  superclasses (get_class_hierarchy g c) = extract_superclass (get_class_content g c)
  /\ interfaces (get_class_hierarchy g c) = extract_interfaces (get_class_content g c)
  /\ referenced_classes (get_class_hierarchy g c)
     = list_to_set (extract_references (get_class_content g c))
  /\ inner_classes (get_class_hierarchy g c) = []
  /\ (length (superclasses (get_class_hierarchy g c)) <= 1)%nat
  /\ (get_class_content g c = EmptyString ->
      superclasses (get_class_hierarchy g c) = []
      /\ interfaces (get_class_hierarchy g c) = []
      /\ referenced_classes (get_class_hierarchy g c) = ∅).
Proof.
  unfold get_class_hierarchy.
  destruct (hierarchy_of_content trace_usage g c) as (-> & -> & -> & ->).
  split; [done|]. split; [done|]. split; [done|]. split; [done|]. split.
  - unfold extract_superclass. destruct (Re.search _ _); cbn [length]; lia.
  - intros ->.
    assert (extract_superclass EmptyString = []) as -> by reflexivity.
    assert (extract_interfaces EmptyString = []) as -> by reflexivity.
    assert (extract_references EmptyString = []) as -> by reflexivity.
    done.
Qed.

(** X20. Only dotted names are referenced: every name in
    [referenced_classes] is [u.v] with [u] a non-empty run of letters,
    digits and underscores and [v] a non-empty run of those and dots, and
    it occurs in the text of the class.  A class referred to by its simple
    name alone is not in the set. *)
Theorem references_are_dotted_names g c x :
  x ∈ referenced_classes (get_class_hierarchy g c) ->
  (exists u v,
     x = u ++ "." ++ v
     /\ u <> EmptyString /\ v <> EmptyString
     /\ occurrences (outside is_ident_char) u = 0%nat
     /\ occurrences (outside is_name_char) v = 0%nat)
  /\ Py.contains x (get_class_content g c) = true.
Proof.
  unfold get_class_hierarchy.
  destruct (hierarchy_of_content trace_usage g c) as (_ & _ & -> & _).
  rewrite elem_of_list_to_set. unfold extract_references, Re.findall.
  intros Hx. apply findall_from_items in Hx as (pre & t & n & Hc & Hm & ->).
  split.
  - unfold Re.match_len in Hm.
    destruct (Re.match_here re_class_ref t) as [r|] eqn:Hr; [|done].
    injection Hm as <-.
    apply match_here_one, match_branch_sound in Hr.
    destruct r as [|n1 [|n2 [|n3 [|n4 r]]]]; cbn [segments_ok] in Hr; try tauto.
    cbn [Re.qt Re.cls Re.chr] in Hr.
    destruct Hr as (Hn1 & Ho1 & H1 & Hn2 & Ho2 & -> & Hn3 & Ho3 & H3 & _).
    unfold Re.total. cbn [fold_right]. rewrite Nat.add_0_r, !take_add.
    assert (Py.take 1 (Py.drop n1 t) = ".") as ->.
    { destruct (Py.drop n1 t) as [|y d]; [cbn in Hn2; lia|].
      cbn [Py.take occurrences] in Ho2.
      unfold outside in Ho2.
      destruct (Ascii.eqb_spec "." y) as [<-|]; [|cbn in Ho2; lia].
      done. }
    exists (Py.take n1 t), (Py.take n3 (Py.drop 1 (Py.drop n1 t))).
    split; [done|]. split; [apply take_nonempty; lia|].
    split; [apply take_nonempty; lia|]. done.
  - apply contains_spec. exists pre, (Py.drop n t).
    by rewrite Hc, take_drop.
Qed.

Lemma references_are_dotted_names_witness :
  Py.contains "q.X" (get_class_content g_refs "q.A") = true.
Proof.
  refine (proj2 (references_are_dotted_names g_refs "q.A" "q.X" _)).
  unfold get_class_hierarchy.
  rewrite (proj1 (proj2 (proj2 (hierarchy_of_content trace_usage g_refs "q.A")))).
  apply elem_of_list_to_set, list_elem_of_In. vm_compute. tauto.
Defined.

(** X21. The superclass follows the word [extends]: when a superclass is
    recorded it is the only one, it is a non-empty run of letters, digits,
    underscores and dots, and the text of the class holds the word
    [extends], one or more whitespace characters and that name, in this
    order and next to each other. *)
Theorem superclass_follows_extends g c x :
  x ∈ superclasses (get_class_hierarchy g c) ->
  superclasses (get_class_hierarchy g c) = [x]
  /\ x <> EmptyString
  /\ occurrences (outside is_name_char) x = 0%nat
  /\ exists pre w post,
       get_class_content g c = pre ++ "extends" ++ w ++ x ++ post
       /\ w <> EmptyString
       /\ occurrences (outside Py.is_space) w = 0%nat.
Proof.
  unfold get_class_hierarchy.
  destruct (hierarchy_of_content trace_usage g c) as (-> & _).
  unfold extract_superclass, re_extends.
  destruct (Re.search _ (get_class_content g c)) as [[i r]|] eqn:Hs;
    [|intros H; by inversion H].
  apply search_keyword in Hs as (pre & w & y & post & Hc & Hg & Hw & Hws & Hy & Hys).
  change (S (String.length "extends")) with 8%nat in Hg. rewrite Hg.
  intros Hx. apply list_elem_of_singleton in Hx as ->.
  split; [done|]. split; [done|]. split; [done|]. by exists pre, w, post.
Qed.

Lemma superclass_follows_extends_witness :
  superclasses (get_class_hierarchy g_abcd "p.A") = ["p.B"].
Proof.
  refine (proj1 (superclass_follows_extends g_abcd "p.A" "p.B" _)).
  unfold get_class_hierarchy.
  rewrite (proj1 (hierarchy_of_content trace_usage g_abcd "p.A")).
  apply list_elem_of_In. vm_compute. tauto.
Defined.

Lemma split_pieces sep s piece :
  piece ∈ Py.split sep s ->
  occurrences (fun c => Ascii.eqb c sep) piece = 0%nat
  /\ forall cls, occurrences cls s = 0%nat -> occurrences cls piece = 0%nat.
Proof.
  revert piece. induction s as [|x s IH]; intros piece; cbn [Py.split].
  - intros H. apply list_elem_of_singleton in H as ->. done.
  - pose proof (split_nonempty sep s) as Hne.
    destruct (Ascii.eqb x sep) eqn:Hx.
    + intros [->|H]%elem_of_cons; [done|].
      destruct (IH piece H) as [H1 H2]. split; [done|].
      intros cls Hc. apply occurrences_cons_zero in Hc as [_ Hc]. by apply H2.
    + destruct (Py.split sep s) as [|w ws]; [done|].
      intros [->|H]%elem_of_cons.
      * destruct (IH w (list_elem_of_here _ _)) as [H1 H2]. split.
        -- cbn [occurrences]. by rewrite Hx, H1.
        -- intros cls Hc. apply occurrences_cons_zero in Hc as [Hcx Hc].
           cbn [occurrences]. by rewrite Hcx, (H2 cls Hc).
      * destruct (IH piece (list_elem_of_further _ _ _ H)) as [H1 H2].
        split; [done|]. intros cls Hc.
        apply occurrences_cons_zero in Hc as [_ Hc]. by apply H2.
Qed.

(** X22. The interfaces are the pieces, between commas and stripped, of
    what follows the word [implements]: an interface name holds no comma,
    holds only letters, digits, underscores, dots and whitespace, and
    neither starts nor ends with whitespace; and the text of the class
    holds the word [implements]. *)
Theorem interfaces_shape g c x :
  x ∈ interfaces (get_class_hierarchy g c) ->
  occurrences is_comma x = 0%nat
  /\ occurrences (outside is_name_list_char) x = 0%nat
  /\ (forall ch, Fnmatch.head x = Some ch -> Py.is_space ch = false)
  /\ (forall ch, Fnmatch.last_char x = Some ch -> Py.is_space ch = false)
  /\ Py.contains "implements" (get_class_content g c) = true.
Proof.
  unfold get_class_hierarchy.
  destruct (hierarchy_of_content trace_usage g c) as (_ & -> & _).
  unfold extract_interfaces, re_implements.
  destruct (Re.search _ (get_class_content g c)) as [[i r]|] eqn:Hs;
    [|intros H; by inversion H].
  apply search_keyword in Hs as (pre & w & y & post & Hc & Hg & Hw & Hws & Hy & Hys).
  change (S (String.length "implements")) with 11%nat in Hg. rewrite Hg.
  intros Hx. apply list_elem_of_fmap in Hx as (piece & -> & Hp).
  destruct (split_pieces "," y piece Hp) as [Hcomma Hcls].
  unfold Py.strip. repeat split.
  - by apply occurrences_rstrip, occurrences_lstrip.
  - by apply occurrences_rstrip, occurrences_lstrip, Hcls.
  - intros ch Hch. by apply rstrip_head, lstrip_head in Hch.
  - intros ch. apply rstrip_last.
  - apply contains_spec. exists pre, (w ++ y ++ post). exact Hc.
Qed.

Lemma interfaces_shape_witness :
  Py.contains "implements" (get_class_content g_abcd "p.B") = true.
Proof.
  refine (proj2 (proj2 (proj2 (proj2 (interfaces_shape g_abcd "p.B" "p.C" _))))).
  unfold get_class_hierarchy.
  rewrite (proj1 (proj2 (hierarchy_of_content trace_usage g_abcd "p.B"))).
  apply list_elem_of_In. vm_compute. tauto.
Defined.


(** ** The closure is complete when the budget is not reached *)

(** X23. When the run ends below the budget nothing is left to do: the
    queue is empty, and the target and every name pushed by an appended
    class (its superclass, its interfaces, the names it refers to) is
    marked processed, or is rejected by the filter, or has no content. *)
Theorem closure_complete so usage g wl bl target :
  (total_tokens (final_state so usage g wl bl target) < MAX_TOKENS g)%Z ->
  classes_to_process (final_state so usage g wl bl target) = []
  /\ forall x,
       x = target
       \/ (exists a, a ∈ appended (final_state so usage g wl bl target)
                     /\ x ∈ related_classes so usage g a) ->
       x ∈ processed_classes (final_state so usage g wl bl target)
       \/ matches_package_filter x wl bl = false
       \/ get_class_content g x = EmptyString.
Proof.
  intros Hlt.
  set (P := fun st =>
              forall x,
                x = target
                \/ (exists a, a ∈ appended st /\ x ∈ related_classes so usage g a) ->
                x ∈ classes_to_process st
                \/ x ∈ processed_classes st
                \/ matches_package_filter x wl bl = false
                \/ get_class_content g x = EmptyString).
  assert (P (final_state so usage g wl bl target)) as HP.
  { unfold final_state. apply (run_invariant so usage g wl bl P).
    - intros st Hst Hc x Hx.
      destruct (loop_cond_true g st Hc) as (c & queue & Hq & _).
      destruct (loop_body_step so usage g wl bl st c queue Hq)
        as [Hs|Hn Hf Hne Hb|Hn Hf Hne Hb];
        cbn [classes_to_process processed_classes appended] in *.
      + destruct (Hst x Hx) as [Hin|Hrest]; [|by right].
        rewrite Hq in Hin. apply elem_of_cons in Hin as [->|Hin]; [|by left].
        right. exact Hs.
      + assert (x ∈ related_classes so usage g c
                \/ (x = target
                    \/ exists a, a ∈ appended st
                                 /\ x ∈ related_classes so usage g a)) as [Hr|Hold].
        { destruct Hx as [->|(a & Ha & Hr)]; [by right; left|].
          apply elem_of_app in Ha as [Ha|Ha]; [right; right; by exists a|].
          apply list_elem_of_singleton in Ha as ->. by left. }
        * left. apply elem_of_app. by right.
        * destruct (Hst x Hold) as [Hin|[Hp|Hrej]].
          -- rewrite Hq in Hin. apply elem_of_cons in Hin as [->|Hin].
             ++ right; left. apply elem_of_union_l. by apply elem_of_singleton.
             ++ left. apply elem_of_app. by left.
          -- right; left. by apply elem_of_union_r.
          -- by right; right.
      + destruct (Hst x Hx) as [Hin|[Hp|Hrej]].
        * rewrite Hq in Hin. apply elem_of_cons in Hin as [->|Hin]; [|by left].
          right; left. apply elem_of_union_l. by apply elem_of_singleton.
        * right; left. by apply elem_of_union_r.
        * by right; right.
    - intros x [->|(a & Ha & _)]; [left; apply list_elem_of_here|by inversion Ha]. }
  pose proof (final_state_ended so usage g wl bl target) as Hend.
  unfold loop_cond in Hend.
  destruct (classes_to_process (final_state so usage g wl bl target)) as [|c q] eqn:Hq.
  - split; [done|]. intros x Hx. destruct (HP x Hx) as [Hin|Hrest]; [|done].
    rewrite Hq in Hin. by inversion Hin.
  - apply Z.ltb_ge in Hend. lia.
Qed.

Lemma closure_complete_witness :
  classes_to_process (final_state elements trace_usage g_abcd [] [] "p.A") = [].
Proof.
  refine (proj1 (closure_complete elements trace_usage g_abcd [] [] "p.A" _)).
  vm_compute. reflexivity.
Defined.


(** ** The estimate against the length of the text *)

Lemma word_not_space x : Py.is_word x = true -> Py.is_space x = false.
Proof. destruct x as [[] [] [] [] [] [] [] []]; by vm_compute. Qed.

Lemma bracket_is_symbol x : is_bracket x = true -> is_symbol x = true.
Proof. destruct x as [[] [] [] [] [] [] [] []]; by vm_compute. Qed.

Lemma occurrences_le (f h : ascii -> bool) s :
  (forall x, f x = true -> h x = true) ->
  (occurrences f s <= occurrences h s)%nat.
Proof.
  intros Hfh. induction s as [|x s IH]; [done|]. cbn [occurrences].
  destruct (f x) eqn:Hf; [rewrite (Hfh x Hf)|destruct (h x)]; lia.
Qed.

(** Every character starts at most one unit among the words, the symbols
    and the runs of whitespace. *)
Lemma count_chars s (i1 i2 : bool) :
  (runs_from Py.is_word i1 s + occurrences is_symbol s
   + runs_from Py.is_space i2 s <= String.length s)%nat.
Proof.
  revert i1 i2. induction s as [|x s IH]; intros i1 i2; [done|].
  cbn [runs_from occurrences String.length]. unfold is_symbol at 1.
  destruct (Py.is_word x) eqn:Hw.
  - rewrite (word_not_space x Hw). cbn [orb negb].
    specialize (IH true false). destruct i1; lia.
  - destruct (Py.is_space x); cbn [orb negb].
    + specialize (IH false true). destruct i2; lia.
    + specialize (IH false false). lia.
Qed.

Lemma token_units_le_length s :
  (token_units s <= String.length s + bracket_count s)%nat
  /\ (bracket_count s <= String.length s)%nat.
Proof.
  unfold token_units, word_count, whitespace_run_count, bracket_count, maximal_runs.
  pose proof (count_chars s false false).
  pose proof (occurrences_le is_bracket is_symbol s bracket_is_symbol). lia.
Qed.

(** X24. The estimate is bounded by the length: a text of fewer than
    [2^49] characters is estimated at no more than 12/5 of its length, and
    at no more than 6/5 of its length when it holds no bracket; the
    estimate is never negative. *)
Theorem cost_at_most_length text :
  (Z.of_nat (String.length text) < 2 ^ 49)%Z ->
  (0 <= calculate_tokens text <= 12 * Z.of_nat (String.length text) / 5)%Z
  /\ (bracket_count text = 0%nat ->
      (calculate_tokens text <= 6 * Z.of_nat (String.length text) / 5)%Z).
Proof.
  intros Hlen. rewrite calculate_tokens_counts. fold (token_units text).
  destruct (token_units_le_length text) as [H1 H2].
  assert (Float.int_mul_1_2 0 = 0%Z) as E0 by (vm_compute; reflexivity).
  split; [split|].
  - rewrite <- E0 at 1. apply int_mul_1_2_mono. lia.
  - replace (12 * Z.of_nat (String.length text))%Z
      with (6 * (2 * Z.of_nat (String.length text)))%Z by lia.
    rewrite <- int_mul_1_2_exact by lia. apply int_mul_1_2_mono. lia.
  - intros Hb. rewrite <- int_mul_1_2_exact by lia. apply int_mul_1_2_mono. lia.
Qed.

Lemma cost_at_most_length_witness :
  (0 <= calculate_tokens "f(x)" <= 12 * Z.of_nat (String.length "f(x)") / 5)%Z.
Proof.
  refine (proj1 (cost_at_most_length "f(x)" _)). vm_compute. reflexivity.
Defined.

(** ** The number printed by [main] *)

Lemma runs_from_app_head c (inside : bool) (a t : string) :
  (forall ch, Fnmatch.head t = Some ch -> c ch = false) ->
  runs_from c inside (a ++ t) = (runs_from c inside a + runs_from c false t)%nat.
Proof.
  intros Ht. revert inside. induction a as [|x a IH]; intros inside.
  - rewrite append_empty. destruct t as [|y t]; [done|].
    cbn [runs_from]. by rewrite (Ht y eq_refl).
  - rewrite append_cons. cbn [runs_from]. destruct (c x); rewrite IH; lia.
Qed.

Lemma runs_from_cons c (inside : bool) x s :
  runs_from c inside (String x s)
  = if c x then ((if inside then 0 else 1) + runs_from c true s)%nat
    else runs_from c false s.
Proof. done. Qed.

Lemma runs_from_app_last c (inside : bool) (a t : string) :
  (forall ch, Fnmatch.last_char a = Some ch -> c ch = false) ->
  a <> EmptyString \/ inside = false ->
  runs_from c inside (a ++ t) = (runs_from c inside a + runs_from c false t)%nat.
Proof.
  intros Ha. revert inside. induction a as [|x a IH]; intros inside Hne.
  - destruct Hne as [H|H]; [done|]. by rewrite H.
  - rewrite append_cons. destruct a as [|y a].
    + rewrite append_empty. cbn [runs_from]. by rewrite (Ha x eq_refl).
    + assert (forall ch, Fnmatch.last_char (String y a) = Some ch -> c ch = false)
        as Ha' by exact Ha.
      rewrite (runs_from_cons c inside x (String y a ++ t)),
        (runs_from_cons c inside x (String y a)).
      destruct (c x).
      * rewrite (IH Ha' true) by (by left). lia.
      * by rewrite (IH Ha' false) by (by left).
Qed.

(** Two texts joined by an empty line count at least as much as apart,
    when the first does not end with whitespace. *)
Lemma token_units_joined a r :
  (forall ch, Fnmatch.last_char a = Some ch -> Py.is_space ch = false) ->
  (token_units a + token_units r <= token_units (a ++ (nl ++ nl) ++ r))%nat.
Proof.
  intros Ha.
  unfold token_units, word_count, bracket_count, whitespace_run_count, maximal_runs.
  rewrite (runs_from_app_head Py.is_word false a ((nl ++ nl) ++ r))
    by (by intros ch [= <-]).
  rewrite (runs_from_app_last Py.is_space false a ((nl ++ nl) ++ r) Ha)
    by (by right).
  rewrite !occurrences_app.
  change ((nl ++ nl) ++ r) with (String newline (String newline r)).
  assert (Py.is_word newline = false) as Hw by reflexivity.
  assert (Py.is_space newline = true) as Hs by reflexivity.
  assert (occurrences is_symbol nl = 0%nat) as -> by reflexivity.
  assert (occurrences is_bracket nl = 0%nat) as -> by reflexivity.
  cbn [runs_from]. rewrite Hw, Hs.
  pose proof (runs_from_flag Py.is_space r). lia.
Qed.

Lemma token_units_join parts :
  Forall (fun b => forall ch, Fnmatch.last_char b = Some ch -> Py.is_space ch = false)
         parts ->
  (fold_right Nat.add 0%nat (map token_units parts)
   <= token_units (Py.join (nl ++ nl) parts))%nat.
Proof.
  induction 1 as [|b parts Hb Hparts IH]; [cbn; lia|].
  destruct parts as [|b' parts]; [cbn [map fold_right Py.join]; lia|].
  change (Py.join (nl ++ nl) (b :: b' :: parts))
    with (b ++ (nl ++ nl) ++ Py.join (nl ++ nl) (b' :: parts)).
  pose proof (token_units_joined b (Py.join (nl ++ nl) (b' :: parts)) Hb).
  cbn [map fold_right] in *. lia.
Qed.

(** The integer parts of the products add up to no more than the integer
    part of the product of the sum. *)
Lemma sum_of_products units :
  (fold_right Z.add 0 (map (fun n => 6 * Z.of_nat n / 5) units)
   <= 6 * Z.of_nat (fold_right Nat.add 0%nat units) / 5)%Z.
Proof.
  induction units as [|n units IH]; [done|]. cbn [map fold_right].
  set (m := fold_right Nat.add 0%nat units) in *.
  apply Z.div_le_lower_bound; [lia|].
  pose proof (Z.mul_div_le (6 * Z.of_nat n) 5 ltac:(lia)).
  pose proof (Z.mul_div_le (6 * Z.of_nat m) 5 ltac:(lia)).
  lia.
Qed.

Lemma normalised_body_last code ch :
  Fnmatch.last_char (optimize_code_tokens code) = Some ch -> Py.is_space ch = false.
Proof. rewrite optimize_code_tokens_steps. apply rstrip_last. Qed.

Lemma counter_is_sum so usage g wl bl fuel st :
  total_tokens st
  = fold_right Z.add 0%Z (map calculate_tokens (context_parts st)) ->
  Forall (fun b => forall ch, Fnmatch.last_char b = Some ch -> Py.is_space ch = false)
         (context_parts st) ->
  total_tokens (run so usage g wl bl fuel st)
  = fold_right Z.add 0%Z
      (map calculate_tokens (context_parts (run so usage g wl bl fuel st)))
  /\ Forall (fun b => forall ch, Fnmatch.last_char b = Some ch
                                 -> Py.is_space ch = false)
            (context_parts (run so usage g wl bl fuel st)).
Proof.
  intros H1 H2.
  apply (run_invariant so usage g wl bl
           (fun st =>
              total_tokens st
              = fold_right Z.add 0%Z (map calculate_tokens (context_parts st))
              /\ Forall (fun b => forall ch, Fnmatch.last_char b = Some ch
                                             -> Py.is_space ch = false)
                        (context_parts st))); [|done].
  clear. intros st [Hsum Hall] Hc.
  destruct (loop_cond_true g st Hc) as (c & queue & Hq & _).
  destruct (loop_body_step so usage g wl bl st c queue Hq);
    cbn [total_tokens context_parts]; [done| |done].
  split.
  - rewrite map_app, fold_right_app. cbn [map fold_right]. rewrite Hsum.
    clear. induction (map calculate_tokens (context_parts st)) as [|z zs IH];
      cbn [fold_right]; lia.
  - apply Forall_app. split; [done|]. apply Forall_singleton.
    apply normalised_body_last.
Qed.

(** X25. The number [main] prints is the estimate of the whole context;
    for a context of fewer than [2^49] characters it is never below the
    counter that [generate_context] holds against the budget. *)
Theorem reported_tokens_cover_counter so g target wl bl :
  (Z.of_nat (String.length (generate_context so g target (Some wl) (Some bl)))
   < 2 ^ 49)%Z ->
  (total_tokens (final_state so trace_usage g wl bl target)
   <= reported_tokens so g target wl bl)%Z.
Proof.
  unfold reported_tokens, generate_context.
  change (default [] (Some wl)) with wl. change (default [] (Some bl)) with bl.
  unfold generate_context_with. intros Hlen.
  destruct (counter_is_sum so trace_usage g wl bl
              (enough_fuel so trace_usage g target) (initial_state target))
    as [Hsum Hall]; [done|apply Forall_nil_2|].
  fold (final_state so trace_usage g wl bl target) in Hsum, Hall.
  set (parts := context_parts (final_state so trace_usage g wl bl target)) in *.
  set (context := Py.join (nl ++ nl) parts) in *.
  pose proof (token_units_join parts Hall) as Hjoin. fold context in Hjoin.
  destruct (token_units_le_length context) as [Hu1 Hu2].
  rewrite Hsum, (calculate_tokens_counts context). fold (token_units context).
  rewrite int_mul_1_2_exact by lia.
  etransitivity; [|apply Z.div_le_mono; [lia|];
                   apply Z.mul_le_mono_nonneg_l; [lia|];
                   apply inj_le, Hjoin].
  etransitivity; [|apply sum_of_products].
  rewrite map_map.
  assert (Z.of_nat (fold_right Nat.add 0%nat (map token_units parts)) < 2 ^ 50)%Z
    as Hsmall by lia.
  clear -Hsmall. induction parts as [|b parts IH]; [done|].
  cbn [map fold_right] in *.
  rewrite calculate_tokens_counts. fold (token_units b).
  rewrite int_mul_1_2_exact by lia. specialize (IH ltac:(lia)). lia.
Qed.

Lemma reported_tokens_cover_counter_witness :
  (total_tokens (final_state elements trace_usage g_abcd [] [] "p.A")
   <= reported_tokens elements g_abcd "p.A" [] [])%Z.
Proof.
  refine (reported_tokens_cover_counter elements g_abcd "p.A" [] [] _).
  vm_compute. reflexivity.
Defined.


(** ** The normalisation never raises the estimate *)

Lemma token_units_from t : token_units t = units_from false false t.
Proof.
  unfold token_units, units_from, word_count, bracket_count,
    whitespace_run_count, maximal_runs. lia.
Qed.

Lemma units_from_cons iw isp x t :
  units_from iw isp (String x t)
  = ((if Py.is_word x then (if iw then 0 else 1) else 0)
     + (if is_symbol x then 1 else 0) + (if is_bracket x then 1 else 0)
     + (if Py.is_space x then (if isp then 0 else 1) else 0)
     + units_from (Py.is_word x) (Py.is_space x) t)%nat.
Proof.
  unfold units_from. cbn [runs_from occurrences].
  destruct (Py.is_word x), (Py.is_space x), (is_symbol x), (is_bracket x); lia.
Qed.

Lemma units_from_flags iw isp t :
  (units_from true true t <= units_from iw isp t <= units_from false false t)%nat
  /\ (units_from iw false t <= S (units_from iw true t))%nat
  /\ (units_from true isp t <= units_from false isp t)%nat
  /\ (units_from iw true t <= units_from iw false t)%nat.
Proof.
  unfold units_from.
  pose proof (runs_from_flag Py.is_word t). pose proof (runs_from_flag Py.is_space t).
  destruct iw, isp; lia.
Qed.

Lemma shrinks_refl s : shrinks s s.
Proof. intros iw isp. lia. Qed.

Lemma shrinks_cons x r s : shrinks r s -> shrinks (String x r) (String x s).
Proof.
  intros H iw isp. rewrite !units_from_cons.
  specialize (H (Py.is_word x) (Py.is_space x)). lia.
Qed.

Lemma space_char x :
  Py.is_space x = true ->
  Py.is_word x = false /\ is_symbol x = false /\ is_bracket x = false.
Proof. destruct x as [[] [] [] [] [] [] [] []]; by vm_compute. Qed.

Lemma units_all_space m T iw isp :
  m <> EmptyString ->
  occurrences (outside Py.is_space) m = 0%nat ->
  units_from iw isp (m ++ T)
  = ((if isp then 0 else 1) + units_from false true T)%nat.
Proof.
  intros Hne Hall. revert iw isp. induction m as [|x m IH]; [done|].
  intros iw isp. apply occurrences_cons_zero in Hall as [Hx Hall].
  unfold outside in Hx. apply negb_false_iff in Hx.
  destruct (space_char x Hx) as (Hw & Hsy & Hb).
  rewrite append_cons, units_from_cons, Hw, Hsy, Hb, Hx.
  destruct m as [|y m].
  - rewrite append_empty. destruct isp; lia.
  - rewrite (IH ltac:(done) Hall false true). destruct isp; lia.
Qed.

Lemma units_space_prefix m T :
  occurrences (outside Py.is_space) m = 0%nat ->
  (units_from false false T <= units_from false false (m ++ T))%nat.
Proof.
  intros Hall. destruct m as [|x m]; [by rewrite append_empty|].
  rewrite (units_all_space (String x m) T false false) by done.
  destruct (units_from_flags false false T) as (_ & H & _). lia.
Qed.

(** Text put before never lowers the count. *)
Lemma units_prefix A S iw isp :
  (units_from true true S <= units_from iw isp (A ++ S))%nat.
Proof.
  revert iw isp. induction A as [|y A IH]; intros iw isp.
  - rewrite append_empty. by destruct (units_from_flags iw isp S) as ([? _] & _).
  - rewrite append_cons, units_from_cons.
    specialize (IH (Py.is_word y) (Py.is_space y)). lia.
Qed.

Lemma length_drop n s : String.length (Py.drop n s) = (String.length s - n)%nat.
Proof.
  revert s. induction n as [|n IH]; intros s; [rewrite drop_0; lia|].
  destruct s as [|x s]; [done|]. cbn [Py.drop String.length]. by rewrite IH.
Qed.

Lemma segments_total p r s :
  segments_ok p r s -> (Re.total r <= String.length s)%nat.
Proof.
  revert r s. induction p as [|a p IH]; intros r s.
  - destruct r; [cbn; lia|done].
  - destruct r as [|n r]; [done|]. cbn [segments_ok].
    intros (Hn & _ & _ & H). apply IH in H. rewrite length_drop in H.
    unfold Re.total in *. cbn [fold_right]. lia.
Qed.

Lemma match_len_one_branch b t n :
  Re.match_len [b] t = Some n ->
  exists r, segments_ok b r t /\ Re.total r = n.
Proof.
  unfold Re.match_len.
  destruct (Re.match_here [b] t) as [r|] eqn:Hr; [|done].
  intros [= <-]. exists r. split; [|done].
  by apply match_branch_sound, match_here_one.
Qed.

Lemma sub_from_skip re repl l s :
  (l <= String.length s)%nat ->
  Re.sub_from re repl l s = Re.sub_from re repl 0 (Py.drop l s).
Proof.
  revert s. induction l as [|l IH]; intros s Hl; [by rewrite drop_0|].
  destruct s as [|x s]; [cbn in Hl; lia|].
  cbn [Re.sub_from Py.drop]. apply IH. cbn in Hl. lia.
Qed.

(** [re.sub] shrinks the text as soon as replacing one match at the start
    of a text does. *)
Lemma sub_shrinks b repl :
  (forall t n R,
     Re.match_len [b] t = Some n ->
     (1 <= n)%nat /\ (shrinks R (Py.drop n t) -> shrinks (repl ++ R) t)) ->
  forall s, shrinks (Re.sub [b] repl s) s.
Proof.
  intros Hloc s. unfold Re.sub.
  assert (forall k t, (String.length t <= k)%nat ->
                      shrinks (Re.sub_from [b] repl 0 t) t) as H;
    [|by apply (H (String.length s))].
  clear s. induction k as [|k IH]; intros t Hk.
  - destruct t as [|x t]; [|cbn in Hk; lia]. cbn [Re.sub_from].
    destruct (Re.match_len [b] EmptyString) as [n|] eqn:Hm; [|apply shrinks_refl].
    destruct (match_len_one_branch b _ _ Hm) as (r & Hr & <-).
    apply segments_total in Hr. destruct (Hloc _ _ EmptyString Hm) as [H1 _].
    cbn in Hr. lia.
  - destruct t as [|x t]; [apply IH; cbn; lia|]. cbn [Re.sub_from].
    destruct (Re.match_len [b] (String x t)) as [[|l]|] eqn:Hm.
    + destruct (Hloc _ _ EmptyString Hm) as [H1 _]. lia.
    + destruct (match_len_one_branch b _ _ Hm) as (r & Hr & Htot).
      apply segments_total in Hr. rewrite Htot in Hr. cbn in Hr, Hk.
      rewrite sub_from_skip by lia.
      apply (Hloc _ _ _ Hm). cbn [Py.drop]. apply IH.
      rewrite length_drop. lia.
    + apply shrinks_cons, IH. cbn in Hk. lia.
Qed.

Lemma spaces_local t n R :
  Re.match_len [[Re.Atom Py.is_space Re.Plus]] t = Some n ->
  (1 <= n)%nat /\ (shrinks R (Py.drop n t) -> shrinks (" " ++ R) t).
Proof.
  intros Hm. destruct (match_len_one_branch _ _ _ Hm) as (r & Hr & <-).
  destruct r as [|n1 [|n2 r]]; cbn [segments_ok] in Hr; try tauto.
  cbn [Re.qt Re.cls] in Hr. destruct Hr as (Hn & Hall & H1 & _).
  unfold Re.total. cbn [fold_right]. rewrite Nat.add_0_r.
  split; [done|]. intros HR iw isp.
  rewrite <- (take_drop n1 t) at 1.
  rewrite (units_all_space (Py.take n1 t)) by (by apply take_nonempty || done).
  change (" " ++ R) with (String " " R). rewrite units_from_cons.
  change (Py.is_word " ") with false. change (Py.is_space " ") with true.
  change (is_symbol " ") with false. change (is_bracket " ") with false.
  specialize (HR false true). destruct isp; lia.
Qed.

(** A match of [\s*x\s*] is whitespace, [x] and whitespace. *)
Lemma match_around x t n :
  Re.match_len [[ws; Re.chr x; ws]] t = Some n ->
  exists w1 w2,
    t = w1 ++ String x (w2 ++ Py.drop n t)
    /\ occurrences (outside Py.is_space) w2 = 0%nat.
Proof.
  intros Hm. destruct (match_len_one_branch _ _ _ Hm) as (r & Hr & <-).
  destruct r as [|n1 [|n2 [|n3 [|n4 r]]]]; cbn [segments_ok] in Hr; try tauto.
  cbn [ws Re.qt Re.cls Re.chr] in Hr.
  destruct Hr as (Hn1 & _ & _ & Hn2 & Ho2 & -> & Hn3 & Ho3 & _ & _).
  unfold Re.total. cbn [fold_right]. rewrite Nat.add_0_r.
  exists (Py.take n1 t), (Py.take n3 (Py.drop 1 (Py.drop n1 t))).
  split; [|done].
  rewrite <- !drop_drop, take_drop.
  destruct (Py.drop n1 t) as [|y d] eqn:Hd; [cbn in Hn2; lia|].
  cbn [Py.take occurrences] in Ho2. unfold outside in Ho2.
  destruct (Ascii.eqb_spec x y) as [<-|]; [|cbn in Ho2; lia].
  cbn [Py.drop]. by rewrite <- Hd, take_drop.
Qed.

Lemma brace_local x t n R :
  Py.is_word x = false -> Py.is_space x = false ->
  Re.match_len [[ws; Re.chr x; ws]] t = Some n ->
  (1 <= n)%nat
  /\ (shrinks R (Py.drop n t) -> shrinks (String x EmptyString ++ R) t).
Proof.
  intros Hw Hs Hm. split.
  - destruct (match_len_one_branch _ _ _ Hm) as (r & Hr & <-).
    destruct r as [|n1 [|n2 [|n3 r]]]; cbn [segments_ok] in Hr; try tauto.
    cbn [ws Re.qt Re.cls Re.chr] in Hr.
    destruct Hr as (_ & _ & _ & _ & _ & -> & _).
    unfold Re.total. cbn [fold_right]. lia.
  - destruct (match_around x t n Hm) as (w1 & w2 & Ht & Hw2).
    intros HR iw isp. rewrite Ht at 1.
    pose proof (units_prefix w1 (String x (w2 ++ Py.drop n t)) iw isp) as H1.
    pose proof (units_space_prefix w2 (Py.drop n t) Hw2) as H2.
    rewrite append_cons, append_empty.
    rewrite units_from_cons in *. rewrite Hw, Hs in *.
    specialize (HR false false). lia.
Qed.

(** A match of [/\*.*?\*/] ends with a slash. *)
Lemma match_block_comment t n :
  Re.match_len re_block_comment t = Some n ->
  (1 <= n)%nat /\ exists A, t = A ++ String "/" (Py.drop n t).
Proof.
  intros Hm. unfold re_block_comment in Hm.
  destruct (match_len_one_branch _ _ _ Hm) as (r & Hr & <-).
  apply segments_lit in Hr as (r1 & t1 & -> & Ht & Hr).
  destruct r1 as [|n1 r1]; [done|]. cbn [app segments_ok] in Hr.
  destruct Hr as (Hn1 & _ & _ & Hr).
  apply (segments_lit "*/" [] r1) in Hr as (r2 & t2 & -> & Ht1 & Hr).
  destruct r2; [|done].
  rewrite total_ones. unfold Re.total. cbn [fold_right app]. rewrite total_ones.
  cbn [String.length fold_right]. change (Re.total []) with 0%nat.
  split; [lia|].
  exists ("/*" ++ Py.take n1 t1 ++ "*").
  assert (Py.drop (2 + (n1 + (2 + 0))) t = t2) as ->.
  { rewrite Ht. change (Py.drop (2 + (n1 + (2 + 0))) ("/*" ++ t1))
      with (Py.drop (n1 + (2 + 0)) t1).
    rewrite <- drop_drop, Ht1. done. }
  rewrite Ht. rewrite <- (take_drop n1 t1) at 1. rewrite Ht1.
  by rewrite !append_assoc.
Qed.

Lemma block_comment_local t n R :
  Re.match_len re_block_comment t = Some n ->
  (1 <= n)%nat /\ (shrinks R (Py.drop n t) -> shrinks (EmptyString ++ R) t).
Proof.
  intros Hm. destruct (match_block_comment t n Hm) as [Hn [A Ht]].
  split; [done|]. intros HR iw isp. rewrite append_empty, Ht.
  pose proof (units_prefix A (String "/" (Py.drop n t)) iw isp) as H1.
  rewrite units_from_cons in H1.
  change (Py.is_word "/") with false in H1.
  change (Py.is_space "/") with false in H1.
  destruct (units_from_flags iw isp (Py.drop n t)) as ([_ H2] & _).
  specialize (HR iw isp).
  destruct (is_symbol "/"), (is_bracket "/"); cbn [Nat.add] in H1; lia.
Qed.

Lemma shrinks_lstrip s : shrinks (Py.lstrip s) s.
Proof.
  induction s as [|x s IH]; [apply shrinks_refl|]. cbn [Py.lstrip].
  destruct (Py.is_space x) eqn:Hx; [|apply shrinks_refl].
  intros iw isp. change (String x s) with (String x EmptyString ++ s).
  rewrite (units_all_space (String x EmptyString) s iw isp);
    [|done|by cbn; unfold outside; rewrite Hx].
  destruct (units_from_flags iw isp (Py.lstrip s)) as (_ & _ & H3 & H4).
  destruct (units_from_flags false true s) as (_ & _ & _ & H5).
  destruct (units_from_flags false false s) as (_ & H6 & _).
  pose proof (IH false true). pose proof (IH false false).
  destruct (units_from_flags true isp (Py.lstrip s)) as (_ & _ & H7 & _).
  destruct iw, isp; lia.
Qed.

Lemma shrinks_rstrip s : shrinks (Py.rstrip s) s.
Proof.
  induction s as [|x s IH]; [apply shrinks_refl|]. cbn [Py.rstrip].
  destruct (Py.rstrip s) as [|y r].
  - destruct (Py.is_space x); intros iw isp; [cbn; lia|].
    rewrite !units_from_cons. cbn. lia.
  - by apply shrinks_cons.
Qed.

(** X26. The normalisation never raises the estimate: the normalised text
    counts no more units than the text, and [calculate_tokens] of it is no
    more than [calculate_tokens] of the text. *)
Theorem optimisation_never_raises_estimate code :
  (token_units (optimize_code_tokens code) <= token_units code)%nat
  /\ (calculate_tokens (optimize_code_tokens code) <= calculate_tokens code)%Z.
Proof.
  assert (shrinks (optimize_code_tokens code) code) as H.
  { rewrite optimize_code_tokens_steps. unfold Py.strip.
    intros iw isp.
    etransitivity; [apply shrinks_rstrip|].
    etransitivity; [apply shrinks_lstrip|].
    etransitivity; [apply (sub_shrinks _ EmptyString block_comment_local)|].
    etransitivity;
      [apply (sub_shrinks _ "}" (fun t n R =>
                brace_local "}" t n R eq_refl eq_refl))|].
    etransitivity;
      [apply (sub_shrinks _ "{" (fun t n R =>
                brace_local "{" t n R eq_refl eq_refl))|].
    apply (sub_shrinks _ " " spaces_local). }
  assert (token_units (optimize_code_tokens code) <= token_units code)%nat as Hu
    by (rewrite !token_units_from; apply H).
  split; [exact Hu|].
  rewrite !calculate_tokens_counts. apply int_mul_1_2_mono.
  unfold token_units in Hu. lia.
Qed.


(** ** Termination *)

(** X27. The loop of [generate_context] ends on every corpus: after
    [enough_fuel] iterations (one per name that can enter the queue, plus
    one per name it would push) the loop condition is false, the queue being
    empty or the budget reached, and further iterations change nothing. *)
Theorem generate_context_terminates so usage g wl bl target :
  loop_cond g (final_state so usage g wl bl target) = false
  /\ (classes_to_process (final_state so usage g wl bl target) = []
      \/ (MAX_TOKENS g <= total_tokens (final_state so usage g wl bl target))%Z)
  /\ forall fuel,
       (enough_fuel so usage g target <= fuel)%nat ->
       run so usage g wl bl fuel (initial_state target)
       = final_state so usage g wl bl target.
Proof.
  pose proof (final_state_ended so usage g wl bl target) as Hend.
  split; [exact Hend|]. split.
  - unfold loop_cond in Hend.
    destruct (classes_to_process (final_state so usage g wl bl target));
      [by left|].
    right. by apply Z.ltb_ge.
  - intros fuel Hfuel. by apply final_state_stable.
Qed.
